(** * Event ordering and comm lifecycle of the main-thread language runtime

    A shallow embedding of
    [src/vs/workbench/api/browser/positron/mainThreadLanguageRuntime.ts]:
    the queued runtime events, the adapter ([ExtHostLanguageRuntimeAdapter])
    with its Lamport clock and event queue, the client instances
    ([ExtHostRuntimeClientInstance]) with their pending RPCs, and the
    handle table of [MainThreadLanguageRuntime].

    Objects that the source shares by reference (client instances, deferred
    promises) live in an indexed store; a reference is an index into it.
    Asynchronous continuations (timer callbacks, promise callbacks) are
    separate functions, run by the environment through [step]. *)

From stdpp Require Import base decidable option list strings pretty sorting.
From Stdlib Require Import ZArith HexadecimalString.

Local Open Scope string_scope.
Local Open Scope list_scope.
Local Open Scope Z_scope.

(** ** Enumerations *)

(** Modelled from the spec: the enum [RuntimeState] is declared in
    languageRuntimeService, which is not among the sources; the members are
    those of the state machine in section 4.2 of the specification. *)
Module RuntimeState.
Inductive t :=
| Uninitialized | Starting | Ready | Busy
| Interrupting | Restarting | Exiting | Exited.
#[global] Instance eq_dec : EqDecision t.
Proof. solve_decision. Defined.
End RuntimeState.

(** Modelled from the spec: the enum [RuntimeClientState] is declared in
  languageRuntimeClientInstance, which is not among the sources; the
  members are the lifecycle states of section 4.4 of the specification. *)
Module RuntimeClientState.
Inductive t := Uninitialized | Opening | Connected | Closing | Closed.
#[global] Instance eq_dec : EqDecision t.
Proof. solve_decision. Defined.
End RuntimeClientState.

(** Modelled from the spec: the enum [LanguageRuntimeMessageType] is declared
    in languageRuntimeService, which is not among the sources; the members
    are the nine event categories of section 3 of the specification, under
    the names the switch of [processMessage] uses. *)
Module LanguageRuntimeMessageType.
Inductive t :=
| Stream | Output | Input | Error | Prompt | State
| CommOpen | CommData | CommClosed.
#[global] Instance eq_dec : EqDecision t.
Proof. solve_decision. Defined.
End LanguageRuntimeMessageType.

(** ** Messages and queued events *)

(** [ILanguageRuntimeMessage] and the fields its sub-interfaces add, as one
    flat record (a JS object); payloads are kept as their JSON text. *)
Record ILanguageRuntimeMessage := {
  msg_id : string;
  parent_id : string;
  msg_type : LanguageRuntimeMessageType.t;
  event_clock : Z;
  comm_id : string;
  target_name : string;
  data : string;
}.

Inductive QueuedRuntimeEvent :=
| QueuedRuntimeMessageEvent (clock : Z) (message : ILanguageRuntimeMessage)
| QueuedRuntimeStateEvent (clock : Z) (state : RuntimeState.t).

Definition clock (e : QueuedRuntimeEvent) : Z :=
  match e with
  | QueuedRuntimeMessageEvent c _ => c
  | QueuedRuntimeStateEvent c _ => c
  end.

(** ** Declarations imported from modules outside the sources *)

(** The string values of the enums, the list [Object.values(RuntimeClientType)]
    and [JSON.stringify] on messages are taken as parameters. *)
Record HostDeclarations := {
  RuntimeClientType_values : list string;
  LanguageRuntimeMessageType_text : LanguageRuntimeMessageType.t → string;
  RuntimeState_text : RuntimeState.t → string;
  RuntimeClientState_text : RuntimeClientState.t → string;
  JSON_stringify : ILanguageRuntimeMessage → string;
}.

(** ** A JS [Map]: keys in insertion order *)

Module JsMap.
Section ops.
Context {K V : Type} `{EqDecision K}.

Fixpoint get (k : K) (m : list (K * V)) : option V :=
  match m with
  | [] => None
  | (k', v) :: m' => if decide (k = k') then Some v else get k m'
  end.

Definition has (k : K) (m : list (K * V)) : bool :=
  match get k m with Some _ => true | None => false end.

(** [set] keeps the position of a key that is present and appends a
    new key. *)
Fixpoint set (k : K) (v : V) (m : list (K * V)) : list (K * V) :=
  match m with
  | [] => [(k, v)]
  | (k', v') :: m' =>
      if decide (k = k') then (k, v) :: m' else (k', v') :: set k v m'
  end.

Fixpoint delete (k : K) (m : list (K * V)) : list (K * V) :=
  match m with
  | [] => []
  | (k', v') :: m' =>
      if decide (k = k') then delete k m' else (k', v') :: delete k m'
  end.

Definition values (m : list (K * V)) : list V := m.*2.

Definition clear (m : list (K * V)) : list (K * V) := [].
End ops.
End JsMap.

(** ** Deferred promises *)

Inductive DeferredOutcome :=
| Resolved (value : string)
| Rejected (error : string).

(** Modelled from the spec: [DeferredPromise] (vs/base/common/async) is not
    among the sources; the specification calls it a single-resolution
    promise with at-most-once settlement, so [complete] and [error] settle
    an unsettled promise and leave a settled one as it is. *)
Record DeferredPromise := { outcome : option DeferredOutcome }.

Definition isSettled (p : DeferredPromise) : bool :=
  match outcome p with Some _ => true | None => false end.

Definition complete (value : string) (p : DeferredPromise) : DeferredPromise :=
  if isSettled p then p else {| outcome := Some (Resolved value) |}.

Definition error (err : string) (p : DeferredPromise) : DeferredPromise :=
  if isSettled p then p else {| outcome := Some (Rejected err) |}.

(** ** Effects visible outside the adapter *)

Inductive LogLevel := info | warn | error_level.

(** Calls on the extension host proxy ([ExtHostLanguageRuntimeShape]). *)
Inductive ProxyCall :=
| proxy_removeClient (handle : Z) (id : string)
| proxy_createClient (handle : Z) (id type params : string)
| proxy_sendClientMessage (handle : Z) (id messageId message : string)
| proxy_interruptLanguageRuntime (handle : Z)
| proxy_restartLanguageRuntime (handle : Z)
| proxy_shutdownLanguageRuntime (handle : Z).

(** Values fired on the emitters, as their subscribers receive them. *)
Inductive Fired :=
| onDidChangeRuntimeState (state : RuntimeState.t)
| onDidReceiveRuntimeMessageOutput (m : ILanguageRuntimeMessage)
| onDidReceiveRuntimeMessageStream (m : ILanguageRuntimeMessage)
| onDidReceiveRuntimeMessageInput (m : ILanguageRuntimeMessage)
| onDidReceiveRuntimeMessageError (m : ILanguageRuntimeMessage)
| onDidReceiveRuntimeMessagePrompt (m : ILanguageRuntimeMessage)
| onDidReceiveRuntimeMessageState (m : ILanguageRuntimeMessage)
| onDidCreateClientInstance (client : nat) (m : ILanguageRuntimeMessage)
| onDidChangeClientState (id : string) (state : RuntimeClientState.t)
| onDidReceiveData (id : string) (payload : string).

Inductive Effect :=
| Log (level : LogLevel) (text : string)
| Proxy (call : ProxyCall)
| Fire (f : Fired)
| SetTimeout (timer : nat) (ms : Z)
| ClearTimeout (timer : nat).

(** ** Client instances *)

(** [ExtHostRuntimeClientInstance]. [promises] holds the [DeferredPromise]
    objects that [performRpc] allocated, by index: a promise stays reachable
    from the closure of its timer after it has left [_pendingRpcs].
    [_isDisposed] records the call of [super.dispose()]. *)
Record ExtHostRuntimeClientInstance := {
  _id : string;
  _type : string;
  _handle : Z;
  _state : RuntimeClientState.t;
  _pendingRpcs : list (string * nat);
  promises : list DeferredPromise;
  _isDisposed : bool;
}.

Definition new_ExtHostRuntimeClientInstance (id type : string) (handle : Z)
  : ExtHostRuntimeClientInstance :=
  {| _id := id; _type := type; _handle := handle;
     _state := RuntimeClientState.Uninitialized;
     _pendingRpcs := []; promises := []; _isDisposed := false |}.

Definition with_state (s : RuntimeClientState.t) (c : ExtHostRuntimeClientInstance) :=
  {| _id := _id c; _type := _type c; _handle := _handle c; _state := s;
     _pendingRpcs := _pendingRpcs c; promises := promises c;
     _isDisposed := _isDisposed c |}.

Definition with_pendingRpcs (m : list (string * nat)) (c : ExtHostRuntimeClientInstance) :=
  {| _id := _id c; _type := _type c; _handle := _handle c; _state := _state c;
     _pendingRpcs := m; promises := promises c;
     _isDisposed := _isDisposed c |}.

Definition with_promises (ps : list DeferredPromise) (c : ExtHostRuntimeClientInstance) :=
  {| _id := _id c; _type := _type c; _handle := _handle c; _state := _state c;
     _pendingRpcs := _pendingRpcs c; promises := ps;
     _isDisposed := _isDisposed c |}.

Definition with_isDisposed (b : bool) (c : ExtHostRuntimeClientInstance) :=
  {| _id := _id c; _type := _type c; _handle := _handle c; _state := _state c;
     _pendingRpcs := _pendingRpcs c; promises := promises c;
     _isDisposed := b |}.

(** A method of a client instance: the instance after the call and the
    effects of the call, in order. *)
Definition ClientAction :=
  ExtHostRuntimeClientInstance → ExtHostRuntimeClientInstance * list Effect.

Definition andThen (f g : ClientAction) : ClientAction :=
  λ c, let '(c1, e1) := f c in let '(c2, e2) := g c1 in (c2, e1 ++ e2).

Infix ">>" := andThen (at level 62, right associativity).

Definition skip : ClientAction := λ c, (c, []).

(** [promise.complete] / [promise.error] on the object behind a reference. *)
Definition settle (f : DeferredPromise → DeferredPromise) (p : nat)
  (ps : list DeferredPromise) : list DeferredPromise :=
  match ps !! p with
  | Some d => <[p := f d]> ps
  | None => ps
  end.

(** Modelled from the spec: [Emitter] and [Disposable] (vs/base/common) are
    not among the sources. Following section 4.4 of the specification
    (disposal emits Closing and then Closed, and an instance disposed while
    Opening ends Closed), [this._stateEmitter.fire(state)] runs the listener
    the constructor attached, which stores the state in [_state], and hands
    the state to the subscribers; it does so after [super.dispose()] too. *)
Definition setClientState (state : RuntimeClientState.t) : ClientAction :=
  λ c, (with_state state c, [Fire (onDidChangeClientState (_id c) state)]).

Definition getClientState (c : ExtHostRuntimeClientInstance) := _state c.

(** [performRpc]; [messageId] is the result of [generateUuid()]. Returns the
    reference of the new promise. The callback passed to [setTimeout] is
    [performRpc_timeout]. *)
Definition performRpc (messageId request : string) (c : ExtHostRuntimeClientInstance)
  : nat * (ExtHostRuntimeClientInstance * list Effect) :=
  let promise := length (promises c) in
  let c := with_promises (promises c ++ [{| outcome := None |}]) c in
  let c := with_pendingRpcs (JsMap.set messageId promise (_pendingRpcs c)) c in
  (promise,
   (c, [Proxy (proxy_sendClientMessage (_handle c) (_id c) messageId request)])).

Definition performRpc_timeout (promise : nat) (messageId request : string)
  : ClientAction :=
  λ c,
    match promises c !! promise with
    | Some d =>
        if isSettled d then (c, [])
        else
          let c := with_promises
                     (settle (error ("RPC timed out after 5 seconds: " +:+ request))
                        promise (promises c)) c in
          (with_pendingRpcs (JsMap.delete messageId (_pendingRpcs c)) c, [])
    | None => (c, [])
    end.

Definition sendMessage (messageId message : string) : ClientAction :=
  λ c, (c, [Proxy (proxy_sendClientMessage (_handle c) (_id c) messageId message)]).

Definition emitData (message : ILanguageRuntimeMessage) : ClientAction :=
  λ c,
    if bool_decide (parent_id message ≠ "")
       && JsMap.has (parent_id message) (_pendingRpcs c)
    then
      let c := match JsMap.get (parent_id message) (_pendingRpcs c) with
               | Some promise =>
                   with_promises (settle (complete (data message)) promise (promises c)) c
               | None => c
               end in
      (with_pendingRpcs (JsMap.delete (parent_id message) (_pendingRpcs c)) c, [])
    else (c, [Fire (onDidReceiveData (_id c) (data message))]).

Definition dispose : ClientAction :=
  λ c,
    (* super.dispose() *)
    let c := with_isDisposed true c in
    (* Cancel any pending RPCs *)
    let c := with_promises
               (foldl (λ ps promise,
                         settle (error "The language runtime exited before the RPC completed.")
                           promise ps)
                  (promises c) (JsMap.values (_pendingRpcs c))) c in
    if decide (_state c ≠ RuntimeClientState.Closed) then
      ((if decide (_state c = RuntimeClientState.Connected) then
          setClientState RuntimeClientState.Closing >>
          (λ c, (c, [Proxy (proxy_removeClient (_handle c) (_id c))]))
        else skip) >>
       setClientState RuntimeClientState.Closed) c
    else (c, []).

(** ** The adapter *)

Record ILanguageRuntimeMetadata := {
  languageId : string;
  runtimeName : string;
}.

(** [ExtHostLanguageRuntimeAdapter]. Besides the fields of the class:
    [clientObjects] is the store of the client instances created so far (a
    client reference is an index into it; [_clients] maps a comm id to a
    reference), [timers] numbers the handles [setTimeout] returns, [trace]
    collects the effects in order, and [delivered] is a history variable:
    the queued events handed on so far, in order ([processEventQueue] to
    [handleQueuedEvent], and the late branch of [addToEventQueue] to
    [processMessage]). *)
Record ExtHostLanguageRuntimeAdapter := {
  handle : Z;
  metadata : ILanguageRuntimeMetadata;
  _currentState : RuntimeState.t;
  _clients : list (string * nat);
  _eventClock : Z;
  _eventQueue : list QueuedRuntimeEvent;
  _eventQueueTimer : option nat;
  clientObjects : list ExtHostRuntimeClientInstance;
  timers : nat;
  trace : list Effect;
  delivered : list QueuedRuntimeEvent;
}.

Definition new_ExtHostLanguageRuntimeAdapter (handle : Z)
  (metadata : ILanguageRuntimeMetadata) : ExtHostLanguageRuntimeAdapter :=
  {| handle := handle; metadata := metadata;
     _currentState := RuntimeState.Uninitialized;
     _clients := []; _eventClock := 0; _eventQueue := [];
     _eventQueueTimer := None; clientObjects := []; timers := 0%nat;
     trace := []; delivered := [] |}.

Definition with_currentState (s : RuntimeState.t) (a : ExtHostLanguageRuntimeAdapter) :=
  {| handle := handle a; metadata := metadata a; _currentState := s;
     _clients := _clients a; _eventClock := _eventClock a;
     _eventQueue := _eventQueue a; _eventQueueTimer := _eventQueueTimer a;
     clientObjects := clientObjects a; timers := timers a; trace := trace a;
     delivered := delivered a |}.

Definition with_clients (m : list (string * nat)) (a : ExtHostLanguageRuntimeAdapter) :=
  {| handle := handle a; metadata := metadata a;
     _currentState := _currentState a;
     _clients := m; _eventClock := _eventClock a;
     _eventQueue := _eventQueue a; _eventQueueTimer := _eventQueueTimer a;
     clientObjects := clientObjects a; timers := timers a; trace := trace a;
     delivered := delivered a |}.

Definition with_eventClock (c : Z) (a : ExtHostLanguageRuntimeAdapter) :=
  {| handle := handle a; metadata := metadata a;
     _currentState := _currentState a;
     _clients := _clients a; _eventClock := c;
     _eventQueue := _eventQueue a; _eventQueueTimer := _eventQueueTimer a;
     clientObjects := clientObjects a; timers := timers a; trace := trace a;
     delivered := delivered a |}.

Definition with_eventQueue (q : list QueuedRuntimeEvent) (a : ExtHostLanguageRuntimeAdapter) :=
  {| handle := handle a; metadata := metadata a;
     _currentState := _currentState a;
     _clients := _clients a; _eventClock := _eventClock a;
     _eventQueue := q; _eventQueueTimer := _eventQueueTimer a;
     clientObjects := clientObjects a; timers := timers a; trace := trace a;
     delivered := delivered a |}.

Definition with_eventQueueTimer (t : option nat) (a : ExtHostLanguageRuntimeAdapter) :=
  {| handle := handle a; metadata := metadata a;
     _currentState := _currentState a;
     _clients := _clients a; _eventClock := _eventClock a;
     _eventQueue := _eventQueue a; _eventQueueTimer := t;
     clientObjects := clientObjects a; timers := timers a; trace := trace a;
     delivered := delivered a |}.

Definition with_clientObjects (cs : list ExtHostRuntimeClientInstance)
  (a : ExtHostLanguageRuntimeAdapter) :=
  {| handle := handle a; metadata := metadata a;
     _currentState := _currentState a;
     _clients := _clients a; _eventClock := _eventClock a;
     _eventQueue := _eventQueue a; _eventQueueTimer := _eventQueueTimer a;
     clientObjects := cs; timers := timers a; trace := trace a;
     delivered := delivered a |}.

Definition with_timers (n : nat) (a : ExtHostLanguageRuntimeAdapter) :=
  {| handle := handle a; metadata := metadata a;
     _currentState := _currentState a;
     _clients := _clients a; _eventClock := _eventClock a;
     _eventQueue := _eventQueue a; _eventQueueTimer := _eventQueueTimer a;
     clientObjects := clientObjects a; timers := n; trace := trace a;
     delivered := delivered a |}.

Definition with_trace (t : list Effect) (a : ExtHostLanguageRuntimeAdapter) :=
  {| handle := handle a; metadata := metadata a;
     _currentState := _currentState a;
     _clients := _clients a; _eventClock := _eventClock a;
     _eventQueue := _eventQueue a; _eventQueueTimer := _eventQueueTimer a;
     clientObjects := clientObjects a; timers := timers a; trace := t;
     delivered := delivered a |}.

Definition with_delivered (d : list QueuedRuntimeEvent) (a : ExtHostLanguageRuntimeAdapter) :=
  {| handle := handle a; metadata := metadata a;
     _currentState := _currentState a;
     _clients := _clients a; _eventClock := _eventClock a;
     _eventQueue := _eventQueue a; _eventQueueTimer := _eventQueueTimer a;
     clientObjects := clientObjects a; timers := timers a; trace := trace a;
     delivered := d |}.

Definition emit (e : Effect) (a : ExtHostLanguageRuntimeAdapter) :=
  with_trace (trace a ++ [e]) a.

Definition log (level : LogLevel) (text : string) := emit (Log level text).

(** Calls a method on the client instance behind a reference. *)
Definition onClient (client : nat) (f : ClientAction)
  (a : ExtHostLanguageRuntimeAdapter) : ExtHostLanguageRuntimeAdapter :=
  match clientObjects a !! client with
  | Some c =>
      let '(c', es) := f c in
      with_trace (trace a ++ es)
        (with_clientObjects (<[client := c']> (clientObjects a)) a)
  | None => a
  end.

(** [new ExtHostRuntimeClientInstance(...)]: the reference of the new
    object and the adapter whose store holds it. *)
Definition newClient (id type : string) (a : ExtHostLanguageRuntimeAdapter)
  : nat * ExtHostLanguageRuntimeAdapter :=
  (length (clientObjects a),
   with_clientObjects
     (clientObjects a ++ [new_ExtHostRuntimeClientInstance id type (handle a)]) a).

(** [Array.prototype.sort] with the comparator of [processEventQueue]. The
    sort is stable, so its result is fixed by the comparator; it is computed
    here by insertion. *)
Definition compareClock (a b : QueuedRuntimeEvent) : Z := clock a - clock b.

Fixpoint sort_insert (x : QueuedRuntimeEvent) (l : list QueuedRuntimeEvent)
  : list QueuedRuntimeEvent :=
  match l with
  | [] => [x]
  | y :: l' =>
      if decide (compareClock x y ≤ 0) then x :: y :: l'
      else y :: sort_insert x l'
  end.

Definition Array_sort (l : list QueuedRuntimeEvent) : list QueuedRuntimeEvent :=
  foldr sort_insert [] l.

(** [Array.prototype.join]. *)
Fixpoint join (sep : string) (l : list string) : string :=
  match l with
  | [] => ""
  | [s] => s
  | s :: l' => s +:+ sep +:+ join sep l'
  end.

(** [clientType.replace(/\./g, '-')]. *)
Fixpoint replace_dots (s : string) : string :=
  match s with
  | EmptyString => EmptyString
  | String c s' =>
      String (if Ascii.eqb c (Ascii.ascii_of_nat 46) then Ascii.ascii_of_nat 45 else c)
        (replace_dots s')
  end.

(** [generateClientId]; [random] is the value of
    [Math.floor(Math.random() * 0x100000000)] and [clientCounter] the
    static counter of the class, returned incremented. *)
Definition generateClientId (languageId clientType : string) (random : N)
  (clientCounter : N) : string * N :=
  let randomId := NilZero.string_of_uint (N.to_hex_uint random) in
  let nextId := clientCounter in
  let client := replace_dots clientType in
  (client +:+ "-" +:+ languageId +:+ "-" +:+ pretty nextId +:+ "-" +:+ randomId,
   (clientCounter + 1)%N).

Section Adapter.
Context (host : HostDeclarations).

Definition summary (e : QueuedRuntimeEvent) : string :=
  match e with
  | QueuedRuntimeMessageEvent _ message =>
      LanguageRuntimeMessageType_text host (msg_type message)
  | QueuedRuntimeStateEvent _ state => "=> " +:+ RuntimeState_text host state
  end.

(** The body of the loop over the clients in the listener below. *)
Definition closeIfConnected (a : ExtHostLanguageRuntimeAdapter) (client : nat)
  : ExtHostLanguageRuntimeAdapter :=
  match clientObjects a !! client with
  | Some c =>
      if decide (getClientState c = RuntimeClientState.Connected) then
        onClient client
          (setClientState RuntimeClientState.Closing >>
           setClientState RuntimeClientState.Closed >>
           dispose) a
      else a
  | None => a
  end.

(** The listener the constructor attaches to [onDidChangeRuntimeState]. *)
Definition stateListener (state : RuntimeState.t)
  (a : ExtHostLanguageRuntimeAdapter) : ExtHostLanguageRuntimeAdapter :=
  let a := with_currentState state a in
  if decide (state = RuntimeState.Exited) then
    let a := foldl closeIfConnected a (JsMap.values (_clients a)) in
    with_clients (JsMap.clear (_clients a)) a
  else a.

(** [this._stateEmitter.fire(state)]: the constructor's listener was
    attached first, the other subscribers follow. *)
Definition fireState (state : RuntimeState.t)
  (a : ExtHostLanguageRuntimeAdapter) : ExtHostLanguageRuntimeAdapter :=
  emit (Fire (onDidChangeRuntimeState state)) (stateListener state a).

Definition emitDidReceiveClientMessage (message : ILanguageRuntimeMessage)
  (a : ExtHostLanguageRuntimeAdapter) : ExtHostLanguageRuntimeAdapter :=
  match JsMap.get (comm_id message) (_clients a) with
  | Some client => onClient client (emitData message) a
  | None =>
      log warn ("Client instance '" +:+ comm_id message +:+
                "' not found; dropping message: " +:+ JSON_stringify host message) a
  end.

Definition openClientInstance (message : ILanguageRuntimeMessage)
  (a : ExtHostLanguageRuntimeAdapter) : ExtHostLanguageRuntimeAdapter :=
  if negb (bool_decide (target_name message ∈ RuntimeClientType_values host)) then
    emit (Proxy (proxy_removeClient (handle a) (comm_id message))) a
  else
    let '(client, a) := newClient (comm_id message) (target_name message) a in
    let a := with_clients (JsMap.set (comm_id message) client (_clients a)) a in
    let a := onClient client (setClientState RuntimeClientState.Connected) a in
    emit (Fire (onDidCreateClientInstance client message)) a.

Definition emitClientState (id : string) (state : RuntimeClientState.t)
  (a : ExtHostLanguageRuntimeAdapter) : ExtHostLanguageRuntimeAdapter :=
  match JsMap.get id (_clients a) with
  | Some client => onClient client (setClientState state) a
  | None =>
      log warn ("Client instance '" +:+ id +:+
                "' not found; dropping state change: " +:+
                RuntimeClientState_text host state) a
  end.

Definition getRuntimeState (a : ExtHostLanguageRuntimeAdapter) := _currentState a.

(** [createClient]: returns the reference of the new instance (the value the
    returned promise is resolved with) and the incremented counter. The
    callbacks on the promise of [$createClient] are [createClient_then] and
    [createClient_catch]. *)
Definition createClient (type params : string) (random clientCounter : N)
  (a : ExtHostLanguageRuntimeAdapter) : nat * N * ExtHostLanguageRuntimeAdapter :=
  let '(id, clientCounter) :=
    generateClientId (languageId (metadata a)) type random clientCounter in
  let '(client, a) := newClient id type a in
  let a := with_clients (JsMap.set id client (_clients a)) a in
  let a := log info ("Creating " +:+ type +:+ " client '" +:+ id +:+ "'...") a in
  let a := onClient client (setClientState RuntimeClientState.Opening) a in
  let a := emit (Proxy (proxy_createClient (handle a) id type params)) a in
  (client, clientCounter, a).

Definition createClient_then (client : nat) (id : string)
  (a : ExtHostLanguageRuntimeAdapter) : ExtHostLanguageRuntimeAdapter :=
  match clientObjects a !! client with
  | Some c =>
      if decide (getClientState c = RuntimeClientState.Opening) then
        onClient client (setClientState RuntimeClientState.Connected) a
      else
        log warn ("Client '" +:+ id +:+ "' in runtime '" +:+
                  runtimeName (metadata a) +:+ "' " +:+
                  "was closed before it could be created") a
  | None => a
  end.

Definition createClient_catch (client : nat) (id err : string)
  (a : ExtHostLanguageRuntimeAdapter) : ExtHostLanguageRuntimeAdapter :=
  let a := log error_level
             ("Failed to create client '" +:+ id +:+ "' " +:+
              "in runtime '" +:+ runtimeName (metadata a) +:+ "': " +:+ err) a in
  let a := onClient client (setClientState RuntimeClientState.Closed) a in
  with_clients (JsMap.delete id (_clients a)) a.

(** The callback of [listClients] on the resolved [$listClients]; [clients]
    lists the keys of the returned object with their values. Returns the
    references collected in [instances]. *)
Definition listClients_then (clients : list (string * string))
  (a : ExtHostLanguageRuntimeAdapter) : list nat * ExtHostLanguageRuntimeAdapter :=
  foldl (λ '(instances, a) '(key, clientType),
           match JsMap.get key (_clients a) with
           | Some instance => (instances ++ [instance], a)
           | None =>
               if bool_decide (clientType ∈ RuntimeClientType_values host) then
                 let '(client, a) := newClient key clientType a in
                 let a := onClient client (setClientState RuntimeClientState.Connected) a in
                 let a := with_clients (JsMap.set key client (_clients a)) a in
                 (instances ++ [client], a)
               else
                 (instances,
                  log warn ("Ignoring unknown client type '" +:+ clientType +:+
                            "' for client '" +:+ key +:+ "'") a)
           end)
    ([], a) clients.

Definition interrupt (a : ExtHostLanguageRuntimeAdapter) :=
  emit (Proxy (proxy_interruptLanguageRuntime (handle a)))
    (fireState RuntimeState.Interrupting a).

Definition restart (a : ExtHostLanguageRuntimeAdapter) :=
  emit (Proxy (proxy_restartLanguageRuntime (handle a)))
    (fireState RuntimeState.Restarting a).

Definition shutdown (a : ExtHostLanguageRuntimeAdapter) :=
  emit (Proxy (proxy_shutdownLanguageRuntime (handle a)))
    (fireState RuntimeState.Exiting a).

Definition processMessage (message : ILanguageRuntimeMessage)
  (a : ExtHostLanguageRuntimeAdapter) : ExtHostLanguageRuntimeAdapter :=
  match msg_type message with
  | LanguageRuntimeMessageType.Stream =>
      emit (Fire (onDidReceiveRuntimeMessageStream message)) a
  | LanguageRuntimeMessageType.Output =>
      emit (Fire (onDidReceiveRuntimeMessageOutput message)) a
  | LanguageRuntimeMessageType.Input =>
      emit (Fire (onDidReceiveRuntimeMessageInput message)) a
  | LanguageRuntimeMessageType.Error =>
      emit (Fire (onDidReceiveRuntimeMessageError message)) a
  | LanguageRuntimeMessageType.Prompt =>
      emit (Fire (onDidReceiveRuntimeMessagePrompt message)) a
  | LanguageRuntimeMessageType.State =>
      emit (Fire (onDidReceiveRuntimeMessageState message)) a
  | LanguageRuntimeMessageType.CommOpen => openClientInstance message a
  | LanguageRuntimeMessageType.CommData => emitDidReceiveClientMessage message a
  | LanguageRuntimeMessageType.CommClosed =>
      emitClientState (comm_id message) RuntimeClientState.Closed a
  end.

Definition handleQueuedEvent (event : QueuedRuntimeEvent)
  (a : ExtHostLanguageRuntimeAdapter) : ExtHostLanguageRuntimeAdapter :=
  match event with
  | QueuedRuntimeMessageEvent _ message => processMessage message a
  | QueuedRuntimeStateEvent _ state => fireState state a
  end.

(** The body of the [forEach] of [processEventQueue], for one event. *)
Definition deliver (a : ExtHostLanguageRuntimeAdapter) (event : QueuedRuntimeEvent)
  : ExtHostLanguageRuntimeAdapter :=
  let a := with_eventClock (clock event) a in
  handleQueuedEvent event (with_delivered (delivered a ++ [event]) a).

Definition processEventQueue (a : ExtHostLanguageRuntimeAdapter)
  : ExtHostLanguageRuntimeAdapter :=
  let a := match _eventQueueTimer a with
           | Some t => emit (ClearTimeout t) a
           | None => a
           end in
  let a := with_eventQueueTimer None a in
  let a :=
    if decide (1 < length (_eventQueue a))%nat then
      let a := with_eventQueue (Array_sort (_eventQueue a)) a in
      log info ("Processing " +:+ pretty (length (_eventQueue a)) +:+
                " runtime events. " +:+ "Clocks: " +:+
                join ", " ((λ e, pretty (clock e) +:+ ": " +:+ summary e)
                             <$> _eventQueue a)) a
    else a in
  let a := foldl deliver a (_eventQueue a) in
  with_eventQueue [] a.

(** The callback [addToEventQueue] passes to [setTimeout]; it runs only
    while its timer is the pending one. *)
Definition eventQueueTimeout (a : ExtHostLanguageRuntimeAdapter)
  : ExtHostLanguageRuntimeAdapter :=
  match _eventQueueTimer a with
  | Some _ =>
      processEventQueue
        (log warn ("Processing runtime event queue after timeout; " +:+
                   "event ordering issues possible.") a)
  | None => a
  end.

Definition addToEventQueue (event : QueuedRuntimeEvent)
  (a : ExtHostLanguageRuntimeAdapter) : ExtHostLanguageRuntimeAdapter :=
  let clock := clock event in
  if decide (clock < _eventClock a) then
    match event with
    | QueuedRuntimeMessageEvent _ message =>
        let a := log warn ("Received '" +:+ summary event +:+ "' at tick " +:+
                           pretty clock +:+ " " +:+ "while waiting for tick " +:+
                           pretty (_eventClock a + 1) +:+ "; emitting anyway") a in
        processMessage message (with_delivered (delivered a ++ [event]) a)
    | QueuedRuntimeStateEvent _ _ => a
    end
  else
    let a := with_eventQueue (_eventQueue a ++ [event]) a in
    if decide (clock = _eventClock a + 1 ∨ _eventClock a = 0) then
      processEventQueue a
    else
      let a := log info ("Received '" +:+ summary event +:+ "' at tick " +:+
                         pretty clock +:+ " " +:+ "while waiting for tick " +:+
                         pretty (_eventClock a + 1) +:+ "; deferring") a in
      let a := match _eventQueueTimer a with
               | Some t => with_eventQueueTimer None (emit (ClearTimeout t) a)
               | None => a
               end in
      let t := timers a in
      with_eventQueueTimer (Some t) (emit (SetTimeout t 250) (with_timers (S t) a)).

Definition handleRuntimeMessage (message : ILanguageRuntimeMessage) :=
  addToEventQueue (QueuedRuntimeMessageEvent (event_clock message) message).

Definition emitState (clock : Z) (state : RuntimeState.t) :=
  addToEventQueue (QueuedRuntimeStateEvent clock state).

End Adapter.

(** ** The handle table *)

Inductive JsError := Error (message : string).

(** The outcome of a call that may throw. *)
Inductive Completion (A : Type) :=
| Normal (value : A)
| Throw (e : JsError).
Arguments Normal {A} value.
Arguments Throw {A} e.

(** [MainThreadLanguageRuntime]; the adapters are kept in the table
    itself, so a call on an adapter stores the adapter it leaves. The
    services the constructor initializes and the registration with the
    language runtime service are outside the sources and left out. *)
Record MainThreadLanguageRuntime := {
  _runtimes : list (Z * ExtHostLanguageRuntimeAdapter);
}.

Section MainThread.
Context (host : HostDeclarations).

Definition findRuntime (handle : Z) (mt : MainThreadLanguageRuntime)
  : Completion ExtHostLanguageRuntimeAdapter :=
  match JsMap.get handle (_runtimes mt) with
  | Some runtime => Normal runtime
  | None => Throw (Error ("Unknown language runtime handle: " +:+ pretty handle))
  end.

Definition emitLanguageRuntimeMessage (handle : Z) (message : ILanguageRuntimeMessage)
  (mt : MainThreadLanguageRuntime) : Completion MainThreadLanguageRuntime :=
  match findRuntime handle mt with
  | Normal runtime =>
      Normal {| _runtimes :=
                  JsMap.set handle (handleRuntimeMessage host message runtime)
                    (_runtimes mt) |}
  | Throw e => Throw e
  end.

Definition emitLanguageRuntimeState (handle : Z) (clock : Z) (state : RuntimeState.t)
  (mt : MainThreadLanguageRuntime) : Completion MainThreadLanguageRuntime :=
  match findRuntime handle mt with
  | Normal runtime =>
      Normal {| _runtimes :=
                  JsMap.set handle (emitState host clock state runtime)
                    (_runtimes mt) |}
  | Throw e => Throw e
  end.

Definition registerLanguageRuntime (handle : Z) (metadata : ILanguageRuntimeMetadata)
  (mt : MainThreadLanguageRuntime) : MainThreadLanguageRuntime :=
  {| _runtimes :=
       JsMap.set handle (new_ExtHostLanguageRuntimeAdapter handle metadata)
         (_runtimes mt) |}.

Definition unregisterLanguageRuntime (handle : Z) (mt : MainThreadLanguageRuntime)
  : MainThreadLanguageRuntime :=
  {| _runtimes := JsMap.delete handle (_runtimes mt) |}.

End MainThread.

(** ** The calls the environment makes on one adapter *)

(** Inbound notifications, timer and promise callbacks, and the calls of
    the consumers on the adapter and on the client instances it handed
    out. *)
Inductive Call :=
| call_handleRuntimeMessage (message : ILanguageRuntimeMessage)
| call_emitState (clock : Z) (state : RuntimeState.t)
| call_eventQueueTimeout
| call_createClient (type params : string) (random clientCounter : N)
| call_createClient_then (client : nat) (id : string)
| call_createClient_catch (client : nat) (id err : string)
| call_listClients_then (clients : list (string * string))
| call_interrupt
| call_restart
| call_shutdown
| call_performRpc (client : nat) (messageId request : string)
| call_performRpc_timeout (client promise : nat) (messageId request : string)
| call_sendMessage (client : nat) (messageId message : string)
| call_dispose (client : nat).

Definition step (host : HostDeclarations) (a : ExtHostLanguageRuntimeAdapter)
  (c : Call) : ExtHostLanguageRuntimeAdapter :=
  match c with
  | call_handleRuntimeMessage message => handleRuntimeMessage host message a
  | call_emitState clock state => emitState host clock state a
  | call_eventQueueTimeout => eventQueueTimeout host a
  | call_createClient type params random clientCounter =>
      (createClient type params random clientCounter a).2
  | call_createClient_then client id => createClient_then client id a
  | call_createClient_catch client id err => createClient_catch client id err a
  | call_listClients_then clients => (listClients_then host clients a).2
  | call_interrupt => interrupt a
  | call_restart => restart a
  | call_shutdown => shutdown a
  | call_performRpc client messageId request =>
      onClient client (λ c, (performRpc messageId request c).2) a
  | call_performRpc_timeout client promise messageId request =>
      onClient client (performRpc_timeout promise messageId request) a
  | call_sendMessage client messageId message =>
      onClient client (sendMessage messageId message) a
  | call_dispose client => onClient client dispose a
  end.

Definition run (host : HostDeclarations) (a : ExtHostLanguageRuntimeAdapter)
  (calls : list Call) : ExtHostLanguageRuntimeAdapter :=
  foldl (step host) a calls.

(** Submitting a list of events one after the other, no timer firing in
    between. *)
Definition submitAll (host : HostDeclarations) (a : ExtHostLanguageRuntimeAdapter)
  (events : list QueuedRuntimeEvent) : ExtHostLanguageRuntimeAdapter :=
  foldl (λ a e, addToEventQueue host e a) a events.

(** ** Example inputs *)

Definition example_host : HostDeclarations :=
  {| RuntimeClientType_values := ["positron.environment"; "positron.lsp"];
     LanguageRuntimeMessageType_text := λ t,
       match t with
       | LanguageRuntimeMessageType.Stream => "stream"
       | LanguageRuntimeMessageType.Output => "output"
       | LanguageRuntimeMessageType.Input => "input"
       | LanguageRuntimeMessageType.Error => "error"
       | LanguageRuntimeMessageType.Prompt => "prompt"
       | LanguageRuntimeMessageType.State => "state"
       | LanguageRuntimeMessageType.CommOpen => "comm_open"
       | LanguageRuntimeMessageType.CommData => "comm_data"
       | LanguageRuntimeMessageType.CommClosed => "comm_closed"
       end;
     RuntimeState_text := λ s,
       match s with
       | RuntimeState.Uninitialized => "uninitialized"
       | RuntimeState.Starting => "starting"
       | RuntimeState.Ready => "ready"
       | RuntimeState.Busy => "busy"
       | RuntimeState.Interrupting => "interrupting"
       | RuntimeState.Restarting => "restarting"
       | RuntimeState.Exiting => "exiting"
       | RuntimeState.Exited => "exited"
       end;
     RuntimeClientState_text := λ s,
       match s with
       | RuntimeClientState.Uninitialized => "uninitialized"
       | RuntimeClientState.Opening => "opening"
       | RuntimeClientState.Connected => "connected"
       | RuntimeClientState.Closing => "closing"
       | RuntimeClientState.Closed => "closed"
       end;
     JSON_stringify := λ m, "{" +:+ msg_id m +:+ "}" |}.

Definition example_adapter : ExtHostLanguageRuntimeAdapter :=
  new_ExtHostLanguageRuntimeAdapter 7 {| languageId := "python"; runtimeName := "Python 3" |}.

Definition example_message (type : LanguageRuntimeMessageType.t) (clock : Z)
  (comm : string) : ILanguageRuntimeMessage :=
  {| msg_id := "msg-" +:+ pretty clock; parent_id := ""; msg_type := type;
     event_clock := clock; comm_id := comm;
     target_name := "positron.environment"; data := "{}" |}.

(** A stream message event at a given tick. *)
Definition stream_at (clock : Z) : QueuedRuntimeEvent :=
  QueuedRuntimeMessageEvent clock
    (example_message LanguageRuntimeMessageType.Stream clock "").

(** ** Predicates used in the statements *)

Definition clock_le (x y : QueuedRuntimeEvent) : Prop := clock x ≤ clock y.

(** [b] has the clock, queue, timer and delivery history of [a]. *)
Definition same_queue (a b : ExtHostLanguageRuntimeAdapter) : Prop :=
  _eventClock b = _eventClock a ∧ _eventQueue b = _eventQueue a ∧
  _eventQueueTimer b = _eventQueueTimer a ∧ timers b = timers a ∧
  delivered b = delivered a.

(** No queued event is older than the observed clock. *)
Definition queue_ok (a : ExtHostLanguageRuntimeAdapter) : Prop :=
  Forall (λ e, _eventClock a ≤ clock e) (_eventQueue a).

(** [b] has the effects of [a] and possibly more after them. *)
Definition trace_extends (a b : ExtHostLanguageRuntimeAdapter) : Prop :=
  ∃ es, trace b = trace a ++ es.

(** The warning [addToEventQueue] logs for a late message event. *)
Definition late_warning (host : HostDeclarations) (e : QueuedRuntimeEvent)
  (a : ExtHostLanguageRuntimeAdapter) : string :=
  "Received '" +:+ summary host e +:+ "' at tick " +:+ pretty (clock e) +:+
  " " +:+ "while waiting for tick " +:+ pretty (_eventClock a + 1) +:+
  "; emitting anyway".

(** The late branch of [addToEventQueue] for a message event: the warning,
    then the dispatch. *)
Definition emit_late (host : HostDeclarations) (e : QueuedRuntimeEvent)
  (message : ILanguageRuntimeMessage) (a : ExtHostLanguageRuntimeAdapter)
  : ExtHostLanguageRuntimeAdapter :=
  processMessage host message
    (with_delivered (delivered a ++ [e]) (log warn (late_warning host e a) a)).

(** An event the adapter buffers: neither late nor next in sequence. *)
Definition deferred (a : ExtHostLanguageRuntimeAdapter) (e : QueuedRuntimeEvent) : Prop :=
  _eventClock a ≤ clock e ∧ clock e ≠ _eventClock a + 1.

(** What the listener for the Exited state does to a connected client. *)
Definition close_on_exit : ClientAction :=
  setClientState RuntimeClientState.Closing >>
  setClientState RuntimeClientState.Closed >>
  dispose.

(** The client behind a reference exists and is in a given state. *)
Definition client_in_state (a : ExtHostLanguageRuntimeAdapter) (client : nat)
  (s : RuntimeClientState.t) : Prop :=
  ∃ c, clientObjects a !! client = Some c ∧ _state c = s.

(** The client behind a reference exists and is not connected. *)
Definition client_not_connected (a : ExtHostLanguageRuntimeAdapter) (client : nat) : Prop :=
  ∃ c, clientObjects a !! client = Some c ∧ _state c ≠ RuntimeClientState.Connected.

(** The states of the state-change events of a list, in the order of the
    list. *)
Fixpoint states_of (l : list QueuedRuntimeEvent) : list RuntimeState.t :=
  match l with
  | [] => []
  | QueuedRuntimeStateEvent _ state :: l' => state :: states_of l'
  | QueuedRuntimeMessageEvent _ _ :: l' => states_of l'
  end.

Definition is_message (e : QueuedRuntimeEvent) : bool :=
  match e with
  | QueuedRuntimeMessageEvent _ _ => true
  | QueuedRuntimeStateEvent _ _ => false
  end.

(** The message events of a list, in the order of the list. *)
Definition messages_of (l : list QueuedRuntimeEvent) : list QueuedRuntimeEvent :=
  filter (λ e, is_message e) l.

(** The message events a sequence of calls hands to [handleRuntimeMessage]. *)
Fixpoint submitted_messages (calls : list Call) : list QueuedRuntimeEvent :=
  match calls with
  | [] => []
  | call_handleRuntimeMessage message :: calls' =>
      QueuedRuntimeMessageEvent (event_clock message) message
        :: submitted_messages calls'
  | _ :: calls' => submitted_messages calls'
  end.

(** Events that carry the clocks [c + 1], [c + 2], ... in this order. *)
Fixpoint in_sequence (c : Z) (l : list QueuedRuntimeEvent) : Prop :=
  match l with
  | [] => True
  | e :: l' => clock e = c + 1 ∧ in_sequence (c + 1) l'
  end.

(** The queue is empty exactly when no recovery timer is pending. *)
Definition timer_guards_queue (a : ExtHostLanguageRuntimeAdapter) : Prop :=
  _eventQueue a = [] ↔ _eventQueueTimer a = None.

(** A string without the character [-]. *)
Fixpoint dash_free (s : string) : Prop :=
  match s with
  | EmptyString => True
  | String c s' => c ≠ Ascii.ascii_of_nat 45 ∧ dash_free s'
  end.

(** [dispose] cancelling the pending RPCs: the promises after the loop. *)
Definition cancel_all (ps : list DeferredPromise) (refs : list nat)
  : list DeferredPromise :=
  foldl (λ ps promise,
           settle (error "The language runtime exited before the RPC completed.")
             promise ps)
    ps refs.

(** Every entry of the map of clients leads to an instance of the store
    that carries the id it is registered under. *)
Definition clients_consistent (a : ExtHostLanguageRuntimeAdapter) : Prop :=
  ∀ k r, JsMap.get k (_clients a) = Some r →
         ∃ c, clientObjects a !! r = Some c ∧ _id c = k.

(** The timers that are pending after a sequence of effects: [setTimeout]
    adds its handle, [clearTimeout] removes the handle it is given. *)
Definition timer_step (pending : list nat) (e : Effect) : list nat :=
  match e with
  | SetTimeout t _ => pending ++ [t]
  | ClearTimeout t => filter (λ t', t' ≠ t) pending
  | _ => pending
  end.

Definition pending_timers (effects : list Effect) : list nat :=
  foldl timer_step [] effects.

Definition is_timer_effect (e : Effect) : bool :=
  match e with
  | SetTimeout _ _ | ClearTimeout _ => true
  | _ => false
  end.

(** [b] has the effects of [a] followed by effects that touch no timer. *)
Definition quiet (a b : ExtHostLanguageRuntimeAdapter) : Prop :=
  ∃ es, trace b = trace a ++ es ∧ Forall (λ e, is_timer_effect e = false) es.

(** The pending timers are the one the adapter holds, if any, and every
    timer was set with the delay of 250 ms. *)
Definition timers_ok (a : ExtHostLanguageRuntimeAdapter) : Prop :=
  pending_timers (trace a) = option_list (_eventQueueTimer a) ∧
  ∀ t ms, SetTimeout t ms ∈ trace a → ms = 250.

(** What a dispatched message hands to the subscribers, by category. A
    message of one of the six broadcast categories is fired on the emitter
    of its category. A Comm-open message for a known client type announces
    the new instance, the Connected state first; for an unknown type the
    back end is asked to remove the comm. A Comm-data message is fired to
    the data subscribers of the instance registered under its comm id,
    unless it answers a pending RPC: then the promise of the RPC receives
    it and no event is fired. A Comm-closed message hands the Closed state
    to the state subscribers of that instance. For a comm id that is not
    registered the message is dropped with a warning. *)
Definition dispatched (host : HostDeclarations) (message : ILanguageRuntimeMessage)
  (a : ExtHostLanguageRuntimeAdapter) : list Effect :=
  match msg_type message with
  | LanguageRuntimeMessageType.Stream =>
      [Fire (onDidReceiveRuntimeMessageStream message)]
  | LanguageRuntimeMessageType.Output =>
      [Fire (onDidReceiveRuntimeMessageOutput message)]
  | LanguageRuntimeMessageType.Input =>
      [Fire (onDidReceiveRuntimeMessageInput message)]
  | LanguageRuntimeMessageType.Error =>
      [Fire (onDidReceiveRuntimeMessageError message)]
  | LanguageRuntimeMessageType.Prompt =>
      [Fire (onDidReceiveRuntimeMessagePrompt message)]
  | LanguageRuntimeMessageType.State =>
      [Fire (onDidReceiveRuntimeMessageState message)]
  | LanguageRuntimeMessageType.CommOpen =>
      if bool_decide (target_name message ∈ RuntimeClientType_values host) then
        [Fire (onDidChangeClientState (comm_id message) RuntimeClientState.Connected);
         Fire (onDidCreateClientInstance (length (clientObjects a)) message)]
      else [Proxy (proxy_removeClient (handle a) (comm_id message))]
  | LanguageRuntimeMessageType.CommData =>
      match JsMap.get (comm_id message) (_clients a) with
      | Some client =>
          match clientObjects a !! client with
          | Some c =>
              if bool_decide (parent_id message ≠ "")
                 && JsMap.has (parent_id message) (_pendingRpcs c)
              then []
              else [Fire (onDidReceiveData (_id c) (data message))]
          | None => []
          end
      | None =>
          [Log warn ("Client instance '" +:+ comm_id message +:+
                     "' not found; dropping message: " +:+ JSON_stringify host message)]
      end
  | LanguageRuntimeMessageType.CommClosed =>
      match JsMap.get (comm_id message) (_clients a) with
      | Some client =>
          match clientObjects a !! client with
          | Some c => [Fire (onDidChangeClientState (_id c) RuntimeClientState.Closed)]
          | None => []
          end
      | None =>
          [Log warn ("Client instance '" +:+ comm_id message +:+
                     "' not found; dropping state change: " +:+
                     RuntimeClientState_text host RuntimeClientState.Closed)]
      end
  end.

(** ** Properties of the containers *)

Section JsMapFacts.
Context {K V : Type} `{EqDecision K}.
Implicit Types (m : list (K * V)).

Lemma get_set_eq k v m : JsMap.get k (JsMap.set k v m) = Some v.
Proof.
  induction m as [|[k' v'] m IH]; simpl.
  - by rewrite decide_True.
  - destruct (decide (k = k')) as [->|Hne]; simpl.
    + by rewrite decide_True.
    + by rewrite decide_False.
Qed.

Lemma get_set_ne k k' v m : k ≠ k' → JsMap.get k' (JsMap.set k v m) = JsMap.get k' m.
Proof.
  intros Hne. induction m as [|[k0 v0] m IH]; simpl.
  - by rewrite decide_False.
  - destruct (decide (k = k0)) as [->|Hne0]; simpl.
    + by rewrite !decide_False.
    + by rewrite IH.
Qed.

Lemma get_delete_eq k m : JsMap.get k (JsMap.delete k m) = None.
Proof.
  induction m as [|[k' v'] m IH]; simpl; [done|].
  destruct (decide (k = k')) as [->|Hne]; simpl; [done|].
  by rewrite decide_False.
Qed.

Lemma get_delete_ne k k' m : k ≠ k' → JsMap.get k' (JsMap.delete k m) = JsMap.get k' m.
Proof.
  intros Hne. induction m as [|[k0 v0] m IH]; simpl; [done|].
  destruct (decide (k = k0)) as [->|Hne0]; simpl.
  - by rewrite decide_False.
  - by rewrite IH.
Qed.

Lemma get_Some_values k m v : JsMap.get k m = Some v → v ∈ JsMap.values m.
Proof.
  unfold JsMap.values. induction m as [|[k' v'] m IH]; simpl; [done|].
  destruct (decide (k = k')) as [->|Hne].
  - intros [= ->]. left.
  - intros Hget. right. by apply IH.
Qed.

End JsMapFacts.

(** ** Properties of the sort *)

#[local] Instance clock_le_trans : Transitive clock_le.
Proof. unfold clock_le. intros x y z. lia. Qed.

Lemma sort_insert_Permutation x l : sort_insert x l ≡ₚ x :: l.
Proof.
  induction l as [|y l IH]; simpl; [done|].
  case_decide; [done|].
  rewrite IH. apply Permutation_swap.
Qed.

Lemma Array_sort_Permutation l : Array_sort l ≡ₚ l.
Proof.
  induction l as [|x l IH]; simpl; [done|].
  by rewrite sort_insert_Permutation, IH.
Qed.

Lemma sort_insert_head x l :
  Forall (clock_le x) l → sort_insert x l = x :: l.
Proof.
  destruct l as [|y l]; simpl; [done|].
  intros Hall. apply Forall_cons in Hall as [Hxy _].
  unfold clock_le in Hxy. unfold compareClock.
  rewrite decide_True; [done | lia].
Qed.

Lemma sort_insert_StronglySorted x l :
  StronglySorted clock_le l → StronglySorted clock_le (sort_insert x l).
Proof.
  induction 1 as [|y l Hl IH Hy]; simpl.
  - repeat constructor.
  - unfold compareClock. case_decide as Hc.
    + constructor; [by constructor|].
      constructor; [unfold clock_le; lia|].
      eapply Forall_impl; [exact Hy|].
      unfold clock_le. intros z ?. lia.
    + constructor; [done|].
      rewrite sort_insert_Permutation.
      constructor; [unfold clock_le; lia | done].
Qed.

Lemma Array_sort_StronglySorted l : StronglySorted clock_le (Array_sort l).
Proof.
  induction l as [|x l IH]; simpl; [constructor|].
  by apply sort_insert_StronglySorted.
Qed.

(** A queue that is already in clock order is left as it is. *)
Lemma Array_sort_sorted l : StronglySorted clock_le l → Array_sort l = l.
Proof.
  induction 1 as [|x l Hl IH Hx]; simpl; [done|].
  rewrite IH. by apply sort_insert_head.
Qed.


(** ** Frame properties: what the dispatch leaves alone *)

Lemma foldl_invariant {A B} (P : A → Prop) (f : A → B → A) (l : list B) (a : A) :
  (∀ a x, P a → P (f a x)) → P a → P (foldl f a l).
Proof.
  intros Hstep. revert a. induction l as [|x l IH]; simpl; [done|].
  intros a Ha. apply IH. by apply Hstep.
Qed.

Lemma same_queue_refl a : same_queue a a.
Proof. by unfold same_queue. Qed.

Lemma same_queue_trans a b c : same_queue a b → same_queue b c → same_queue a c.
Proof. unfold same_queue. intros (?&?&?&?&?) (?&?&?&?&?). repeat split; congruence. Qed.

Lemma same_queue_emit e a : same_queue a (emit e a).
Proof. by unfold same_queue. Qed.

Lemma same_queue_onClient client f a : same_queue a (onClient client f a).
Proof.
  unfold onClient. destruct (clientObjects a !! client) as [c|]; [|apply same_queue_refl].
  by destruct (f c).
Qed.

Lemma same_queue_stateListener state a : same_queue a (stateListener state a).
Proof.
  unfold stateListener. case_decide; [|done].
  eapply same_queue_trans; [|by unfold same_queue; simpl].
  apply (foldl_invariant (same_queue a)); [|done].
  intros b client Hb. unfold closeIfConnected.
  destruct (clientObjects b !! client) as [c|]; [|done].
  case_decide; [|done].
  eapply same_queue_trans; [exact Hb | apply same_queue_onClient].
Qed.

Lemma same_queue_fireState state a : same_queue a (fireState state a).
Proof.
  unfold fireState. eapply same_queue_trans; [apply same_queue_stateListener|].
  apply same_queue_emit.
Qed.

Section Frame.
Context (host : HostDeclarations).

Lemma same_queue_processMessage message a :
  same_queue a (processMessage host message a).
Proof.
  unfold processMessage.
  destruct (msg_type message); try apply same_queue_emit.
  - unfold openClientInstance. case_match; [apply same_queue_emit|].
    simpl. eapply same_queue_trans; [|apply same_queue_emit].
    eapply same_queue_trans; [|apply same_queue_onClient]. done.
  - unfold emitDidReceiveClientMessage. case_match;
      [apply same_queue_onClient | apply same_queue_emit].
  - unfold emitClientState. case_match;
      [apply same_queue_onClient | apply same_queue_emit].
Qed.

Lemma same_queue_handleQueuedEvent event a :
  same_queue a (handleQueuedEvent host event a).
Proof.
  destruct event; simpl;
    [apply same_queue_processMessage | apply same_queue_fireState].
Qed.

End Frame.

(** ** The queue flush *)

Section Flush.
Context (host : HostDeclarations).

Lemma default_last_cons {A} (d x : A) (l : list A) :
  default d (last (x :: l)) = default x (last l).
Proof. rewrite last_cons. by destruct (last l). Qed.

Lemma deliver_facts a e :
  _eventClock (deliver host a e) = clock e ∧
  _eventQueue (deliver host a e) = _eventQueue a ∧
  _eventQueueTimer (deliver host a e) = _eventQueueTimer a ∧
  timers (deliver host a e) = timers a ∧
  delivered (deliver host a e) = delivered a ++ [e].
Proof.
  unfold deliver.
  destruct (same_queue_handleQueuedEvent host e
              (with_delivered (delivered (with_eventClock (clock e) a) ++ [e])
                 (with_eventClock (clock e) a))) as (H1&H2&H3&H4&H5).
  by rewrite H1, H2, H3, H4, H5.
Qed.

Lemma foldl_deliver_facts l a :
  _eventClock (foldl (deliver host) a l) = default (_eventClock a) (last (clock <$> l)) ∧
  _eventQueue (foldl (deliver host) a l) = _eventQueue a ∧
  _eventQueueTimer (foldl (deliver host) a l) = _eventQueueTimer a ∧
  timers (foldl (deliver host) a l) = timers a ∧
  delivered (foldl (deliver host) a l) = delivered a ++ l.
Proof.
  revert a. induction l as [|e l IH]; intros a; simpl.
  - by rewrite app_nil_r.
  - destruct (IH (deliver host a e)) as (H1&H2&H3&H4&H5).
    destruct (deliver_facts a e) as (D1&D2&D3&D4&D5).
    rewrite H1, H2, H3, H4, H5, D1, D2, D3, D4, D5, <- app_assoc.
    repeat split; try done.
    symmetry. apply default_last_cons.
Qed.

(** What [processEventQueue] sorts and hands on. *)
Lemma flushed_queue a :
  (if decide (1 < length (_eventQueue a))%nat
   then Array_sort (_eventQueue a) else _eventQueue a)
  = Array_sort (_eventQueue a).
Proof.
  case_decide as Hlen; [done|].
  destruct (_eventQueue a) as [|x [|y q]]; simpl in *; [done | done | lia].
Qed.

Lemma processEventQueue_facts a :
  _eventClock (processEventQueue host a)
    = default (_eventClock a) (last (clock <$> Array_sort (_eventQueue a))) ∧
  _eventQueue (processEventQueue host a) = [] ∧
  _eventQueueTimer (processEventQueue host a) = None ∧
  timers (processEventQueue host a) = timers a ∧
  delivered (processEventQueue host a) = delivered a ++ Array_sort (_eventQueue a).
Proof.
  unfold processEventQueue. cbn zeta.
  set (a1 := with_eventQueueTimer None _).
  assert (Ha1 : _eventClock a1 = _eventClock a ∧ _eventQueue a1 = _eventQueue a ∧
                timers a1 = timers a ∧ delivered a1 = delivered a).
  { unfold a1. by destruct (_eventQueueTimer a). }
  destruct Ha1 as (C1&Q1&T1&D1).
  set (a2 := if decide (1 < length (_eventQueue a1))%nat then _ else a1).
  assert (Ha2 : _eventClock a2 = _eventClock a ∧
                _eventQueue a2 = Array_sort (_eventQueue a) ∧
                _eventQueueTimer a2 = None ∧
                timers a2 = timers a ∧ delivered a2 = delivered a).
  { pose proof (flushed_queue a1) as Hq. unfold a2. revert Hq.
    destruct (decide (1 < length (_eventQueue a1))%nat); intros Hq.
    - cbn [_eventClock _eventQueue _eventQueueTimer timers delivered
           log emit with_trace with_eventQueue].
      by rewrite Q1, C1, T1, D1.
    - rewrite <- Q1, <- Hq, C1, T1, D1. by unfold a1. }
  destruct Ha2 as (C2&Q2&E2&T2&D2).
  destruct (foldl_deliver_facts (_eventQueue a2) a2) as (F1&F2&F3&F4&F5).
  simpl. by rewrite F1, F3, F4, F5, C2, Q2, E2, T2, D2.
Qed.

End Flush.

Lemma last_clock_elem (l : list QueuedRuntimeEvent) c :
  last (clock <$> l) = Some c → ∃ l0 e, l = l0 ++ [e] ∧ clock e = c.
Proof.
  rewrite fmap_last. destruct (last l) as [e|] eqn:Hl; [|done].
  intros [= <-]. apply last_Some in Hl as [l0 ->]. by exists l0, e.
Qed.

Section FlushOrder.
Context (host : HostDeclarations).
(** The clocks a flush assigns one after the other never go down. *)
Lemma flush_assignments_monotone a l1 l2 :
  queue_ok a → Array_sort (_eventQueue a) = l1 ++ l2 →
  _eventClock a ≤ _eventClock (foldl (deliver host) a l1) ∧
  _eventClock (foldl (deliver host) a l1)
    ≤ _eventClock (foldl (deliver host) a (l1 ++ l2)).
Proof.
  intros Hok Hsplit.
  assert (Hge : Forall (λ e, _eventClock a ≤ clock e) (l1 ++ l2)).
  { rewrite <- Hsplit. unfold queue_ok in Hok.
    by rewrite Array_sort_Permutation. }
  pose proof (Array_sort_StronglySorted (_eventQueue a)) as Hsorted.
  rewrite Hsplit in Hsorted. clear Hsplit Hok.
  destruct (foldl_deliver_facts host l1 a) as (-> & _).
  destruct (foldl_deliver_facts host (l1 ++ l2) a) as (-> & _).
  rewrite fmap_app, last_app.
  apply Forall_app in Hge as [Hge1 Hge2].
  destruct (last (clock <$> l2)) as [c2|] eqn:H2;
    destruct (last (clock <$> l1)) as [c1|] eqn:H1; simpl; try lia.
  - apply last_clock_elem in H1 as (l0 & e1 & -> & <-).
    apply last_clock_elem in H2 as (l0' & e2 & -> & <-).
    split.
    + apply Forall_app in Hge1 as [_ Hge1]. by apply Forall_inv in Hge1.
    + apply (StronglySorted_app_1_elem_of clock_le _ _ e1 e2 Hsorted);
        apply elem_of_app; right; by apply list_elem_of_singleton.
  - apply last_clock_elem in H2 as (l0' & e2 & -> & <-). split; [lia|].
    apply Forall_app in Hge2 as [_ Hge2]. by apply Forall_inv in Hge2.
  - apply last_clock_elem in H1 as (l0 & e1 & -> & <-). split; [|lia].
    apply Forall_app in Hge1 as [_ Hge1]. by apply Forall_inv in Hge1.
Qed.

Lemma processEventQueue_monotone a :
  queue_ok a → _eventClock a ≤ _eventClock (processEventQueue host a).
Proof.
  intros Hok.
  destruct (processEventQueue_facts host a) as (-> & _).
  destruct (foldl_deliver_facts host (Array_sort (_eventQueue a)) a) as (<- & _).
  by apply (flush_assignments_monotone a (Array_sort (_eventQueue a)) []);
    [|rewrite app_nil_r].
Qed.
End FlushOrder.

(** ** The observed clock *)

Lemma same_queue_queue_ok a b : same_queue a b → queue_ok a → queue_ok b.
Proof. unfold same_queue, queue_ok. intros (-> & -> & _). done. Qed.

Lemma same_queue_createClient type params random clientCounter a :
  same_queue a (createClient type params random clientCounter a).2.
Proof.
  unfold createClient. destruct (generateClientId _ _ _ _) as [id n]. simpl.
  eapply same_queue_trans; [|apply same_queue_emit].
  eapply same_queue_trans; [|apply same_queue_onClient]. done.
Qed.

Lemma same_queue_createClient_then client id a :
  same_queue a (createClient_then client id a).
Proof.
  unfold createClient_then. destruct (clientObjects a !! client); [|done].
  case_decide; [apply same_queue_onClient | apply same_queue_emit].
Qed.

Lemma same_queue_createClient_catch client id err a :
  same_queue a (createClient_catch client id err a).
Proof.
  unfold createClient_catch.
  eapply same_queue_trans; [|by unfold same_queue; simpl].
  eapply same_queue_trans; [|apply same_queue_onClient]. apply same_queue_emit.
Qed.

Lemma same_queue_listClients_then host clients a :
  same_queue a (listClients_then host clients a).2.
Proof.
  unfold listClients_then.
  apply (foldl_invariant (λ p, same_queue a p.2)); [|done].
  intros [instances b] [key clientType] Hb. simpl in *.
  destruct (JsMap.get key (_clients b)); [done|].
  case_bool_decide; simpl.
  - eapply same_queue_trans; [exact Hb|].
    eapply same_queue_trans; [|by unfold same_queue; simpl].
    eapply same_queue_trans; [|apply same_queue_onClient]. done.
  - eapply same_queue_trans; [exact Hb | apply same_queue_emit].
Qed.

Section Clock.
Context (host : HostDeclarations).

Lemma addToEventQueue_clock e a :
  queue_ok a →
  _eventClock a ≤ _eventClock (addToEventQueue host e a) ∧
  queue_ok (addToEventQueue host e a).
Proof.
  intros Hok. unfold addToEventQueue. cbn zeta.
  destruct (decide (clock e < _eventClock a)) as [Hlate|Hnew].
  - destruct e as [c m|c s]; [|split; [lia | done]].
    match goal with |- context [processMessage host m ?b] =>
      pose proof (same_queue_processMessage host m b) as Hsame end.
    split.
    + destruct Hsame as (-> & _). simpl. lia.
    + eapply same_queue_queue_ok; [exact Hsame|]. exact Hok.
  - assert (Hpush : queue_ok (with_eventQueue (_eventQueue a ++ [e]) a)).
    { unfold queue_ok in *. simpl. apply Forall_app. split; [done|].
      apply Forall_singleton. lia. }
    cbn [_eventClock with_eventQueue].
    case_decide.
    + split; [by apply (processEventQueue_monotone host _ Hpush)|].
      unfold queue_ok.
      by destruct (processEventQueue_facts host
                     (with_eventQueue (_eventQueue a ++ [e]) a)) as (_ & -> & _).
    + cbn [_eventQueueTimer log emit with_trace with_eventQueue].
      destruct (_eventQueueTimer a); (split; [simpl; lia | exact Hpush]).
Qed.

Lemma eventQueueTimeout_clock a :
  queue_ok a →
  _eventClock a ≤ _eventClock (eventQueueTimeout host a) ∧
  queue_ok (eventQueueTimeout host a).
Proof.
  intros Hok. unfold eventQueueTimeout.
  destruct (_eventQueueTimer a); [|split; [lia | done]].
  set (b := log warn _ a).
  assert (Hb : queue_ok b) by done.
  split; [by apply (processEventQueue_monotone host b Hb)|].
  unfold queue_ok.
  by destruct (processEventQueue_facts host b) as (_ & -> & _).
Qed.

Lemma same_queue_clock a b :
  same_queue a b → queue_ok a → _eventClock a ≤ _eventClock b ∧ queue_ok b.
Proof.
  intros Hsame Hok. split; [|by eapply same_queue_queue_ok].
  destruct Hsame as (-> & _). lia.
Qed.

Lemma step_clock a c :
  queue_ok a →
  _eventClock a ≤ _eventClock (step host a c) ∧ queue_ok (step host a c).
Proof.
  intros Hok. destruct c; cbn [step].
  - by apply addToEventQueue_clock.
  - by apply addToEventQueue_clock.
  - by apply eventQueueTimeout_clock.
  - by apply same_queue_clock; [apply same_queue_createClient|].
  - by apply same_queue_clock; [apply same_queue_createClient_then|].
  - by apply same_queue_clock; [apply same_queue_createClient_catch|].
  - by apply same_queue_clock; [apply same_queue_listClients_then|].
  - apply same_queue_clock; [|done]. unfold interrupt.
    eapply same_queue_trans; [apply same_queue_fireState | apply same_queue_emit].
  - apply same_queue_clock; [|done]. unfold restart.
    eapply same_queue_trans; [apply same_queue_fireState | apply same_queue_emit].
  - apply same_queue_clock; [|done]. unfold shutdown.
    eapply same_queue_trans; [apply same_queue_fireState | apply same_queue_emit].
  - by apply same_queue_clock; [apply same_queue_onClient|].
  - by apply same_queue_clock; [apply same_queue_onClient|].
  - by apply same_queue_clock; [apply same_queue_onClient|].
  - by apply same_queue_clock; [apply same_queue_onClient|].
Qed.

Lemma run_queue_ok a calls : queue_ok a → queue_ok (run host a calls).
Proof.
  intros Hok. unfold run. apply (foldl_invariant queue_ok); [|done].
  intros b c Hb. by apply step_clock.
Qed.

Lemma new_adapter_queue_ok handle metadata :
  queue_ok (new_ExtHostLanguageRuntimeAdapter handle metadata).
Proof. unfold queue_ok. simpl. constructor. Qed.

(** C8: the observed clock never decreases. From the state a new adapter
    reaches by any sequence of calls (submissions of in-order, deferred or
    late events, timer firings, or any other call), the next call leaves the
    observed clock at least as large; so does a flush of the queue, and so
    does each single assignment the flush makes on its way through the
    sorted queue. *)
Theorem observed_clock_never_decreases handle metadata calls :
  let a := run host (new_ExtHostLanguageRuntimeAdapter handle metadata) calls in
  (∀ c, _eventClock a ≤ _eventClock (step host a c)) ∧
  _eventClock a ≤ _eventClock (processEventQueue host a) ∧
  (∀ l1 l2, Array_sort (_eventQueue a) = l1 ++ l2 →
     _eventClock a ≤ _eventClock (foldl (deliver host) a l1) ∧
     _eventClock (foldl (deliver host) a l1)
       ≤ _eventClock (foldl (deliver host) a (l1 ++ l2))).
Proof.
  intros a.
  assert (Hok : queue_ok a).
  { apply run_queue_ok, new_adapter_queue_ok. }
  split; [|split].
  - intros c. by apply step_clock.
  - by apply processEventQueue_monotone.
  - intros l1 l2. by apply flush_assignments_monotone.
Qed.

End Clock.

(** ** Late events *)

Lemma trace_extends_refl a : trace_extends a a.
Proof. exists []. by rewrite app_nil_r. Qed.

Lemma trace_extends_trans a b c :
  trace_extends a b → trace_extends b c → trace_extends a c.
Proof.
  intros [es1 H1] [es2 H2]. exists (es1 ++ es2).
  by rewrite H2, H1, app_assoc.
Qed.

Lemma trace_extends_emit e a : trace_extends a (emit e a).
Proof. by exists [e]. Qed.

Lemma trace_extends_onClient client f a : trace_extends a (onClient client f a).
Proof.
  unfold onClient. destruct (clientObjects a !! client) as [c|];
    [|apply trace_extends_refl].
  destruct (f c) as [c' es]. by exists es.
Qed.

Section Late.
Context (host : HostDeclarations).

Lemma trace_extends_processMessage message a :
  trace_extends a (processMessage host message a).
Proof.
  unfold processMessage.
  destruct (msg_type message); try apply trace_extends_emit.
  - unfold openClientInstance. case_match; [apply trace_extends_emit|].
    simpl. eapply trace_extends_trans; [|apply trace_extends_emit].
    eapply trace_extends_trans; [|apply trace_extends_onClient].
    exists []. simpl. by rewrite app_nil_r.
  - unfold emitDidReceiveClientMessage. case_match;
      [apply trace_extends_onClient | apply trace_extends_emit].
  - unfold emitClientState. case_match;
      [apply trace_extends_onClient | apply trace_extends_emit].
Qed.

Lemma addToEventQueue_late_message a c message :
  c < _eventClock a →
  addToEventQueue host (QueuedRuntimeMessageEvent c message) a
    = emit_late host (QueuedRuntimeMessageEvent c message) message a.
Proof.
  intros Hlate. unfold addToEventQueue. cbn zeta.
  by rewrite decide_True by done.
Qed.

Lemma addToEventQueue_late_state a c state :
  c < _eventClock a →
  addToEventQueue host (QueuedRuntimeStateEvent c state) a = a.
Proof.
  intros Hlate. unfold addToEventQueue. cbn zeta.
  by rewrite decide_True by done.
Qed.

Lemma emit_late_facts e message a :
  same_queue (with_delivered (delivered a ++ [e]) a) (emit_late host e message a) ∧
  Log warn (late_warning host e a) ∈ trace (emit_late host e message a).
Proof.
  unfold emit_late. split.
  - eapply same_queue_trans; [|apply same_queue_processMessage]. done.
  - match goal with |- context [processMessage host message ?b] =>
      destruct (trace_extends_processMessage message b) as [es ->] end.
    simpl. rewrite !elem_of_app. left. right. by apply list_elem_of_singleton.
Qed.


End Late.

(** ** Delivery order *)

Section Order.
Context (host : HostDeclarations).

(** An event that is neither late nor next in sequence is buffered. *)
Lemma addToEventQueue_deferred e a :
  _eventClock a ≠ 0 → deferred a e →
  let a' := addToEventQueue host e a in
  _eventClock a' = _eventClock a ∧ _eventQueue a' = _eventQueue a ++ [e] ∧
  delivered a' = delivered a ∧ is_Some (_eventQueueTimer a').
Proof.
  intros Hc [Hge Hne]. unfold addToEventQueue. cbn zeta.
  rewrite decide_False by lia.
  cbn [_eventClock with_eventQueue].
  rewrite decide_False by (intros [?|?]; done).
  cbn [_eventQueueTimer log emit with_trace with_eventQueue].
  destruct (_eventQueueTimer a); simpl; eauto.
Qed.

Lemma submitAll_deferred evs a :
  _eventClock a ≠ 0 → Forall (deferred a) evs →
  let a' := submitAll host a evs in
  _eventClock a' = _eventClock a ∧ _eventQueue a' = _eventQueue a ++ evs ∧
  delivered a' = delivered a ∧ (evs ≠ [] → is_Some (_eventQueueTimer a')).
Proof.
  revert a. induction evs as [|e evs IH]; intros a Hc Hall; simpl.
  - by rewrite app_nil_r.
  - apply Forall_cons in Hall as [He Hall].
    destruct (addToEventQueue_deferred e a Hc He) as (C1 & Q1 & D1 & T1).
    destruct (IH (addToEventQueue host e a)) as (C2 & Q2 & D2 & T2).
    { by rewrite C1. }
    { eapply Forall_impl; [exact Hall|]. unfold deferred. by rewrite C1. }
    unfold submitAll in *. rewrite C2, Q2, D2, C1, Q1, D1, <- app_assoc.
    repeat split; try done. intros _.
    destruct evs as [|e' evs]; [exact T1 | by apply T2].
Qed.




End Order.

(** ** Client state *)

Lemma onClient_lookup_eq client f a c :
  clientObjects a !! client = Some c →
  clientObjects (onClient client f a) !! client = Some (f c).1 ∧
  trace (onClient client f a) = trace a ++ (f c).2 ∧
  _clients (onClient client f a) = _clients a.
Proof.
  intros Hc. unfold onClient. rewrite Hc. destruct (f c) as [c' es]. simpl.
  split; [|done]. apply list_lookup_insert_eq. by eapply lookup_lt_Some.
Qed.

Lemma onClient_lookup_ne client r f a :
  client ≠ r →
  clientObjects (onClient client f a) !! r = clientObjects a !! r.
Proof.
  intros Hne. unfold onClient.
  destruct (clientObjects a !! client) as [c|]; [|done].
  destruct (f c) as [c' es]. simpl. by apply list_lookup_insert_ne.
Qed.

Lemma onClient_clients client f a : _clients (onClient client f a) = _clients a.
Proof.
  unfold onClient. destruct (clientObjects a !! client) as [c|]; [|done].
  by destruct (f c).
Qed.

Lemma close_on_exit_facts c :
  _state (close_on_exit c).1 = RuntimeClientState.Closed ∧
  _isDisposed (close_on_exit c).1 = true ∧
  _pendingRpcs (close_on_exit c).1 = _pendingRpcs c ∧
  (close_on_exit c).2
    = [Fire (onDidChangeClientState (_id c) RuntimeClientState.Closing);
       Fire (onDidChangeClientState (_id c) RuntimeClientState.Closed)].
Proof. done. Qed.

Lemma closeIfConnected_frame a r :
  _clients (closeIfConnected a r) = _clients a ∧
  _currentState (closeIfConnected a r) = _currentState a.
Proof.
  unfold closeIfConnected, onClient.
  destruct (clientObjects a !! r) as [c|]; [|done].
  case_decide; [|done]. by destruct ((_ >> _) c).
Qed.

Lemma closeIfConnected_other a r client :
  r ≠ client →
  clientObjects (closeIfConnected a r) !! client = clientObjects a !! client.
Proof.
  intros Hne. unfold closeIfConnected.
  destruct (clientObjects a !! r) as [c|]; [|done].
  case_decide; [|done]. by apply onClient_lookup_ne.
Qed.

Lemma closeIfConnected_self a client c :
  clientObjects a !! client = Some c →
  clientObjects (closeIfConnected a client) !! client
    = Some (if decide (_state c = RuntimeClientState.Connected)
            then (close_on_exit c).1 else c).
Proof.
  intros Hc. unfold closeIfConnected, getClientState. rewrite Hc.
  case_decide; [|done].
  exact (proj1 (onClient_lookup_eq client close_on_exit a c Hc)).
Qed.

(** The loop of the Exited listener over the registered references. *)
Lemma exited_loop refs : ∀ a client c,
  clientObjects a !! client = Some c →
  let a' := foldl closeIfConnected a refs in
  clientObjects a' !! client
    = Some (if decide (client ∈ refs ∧ _state c = RuntimeClientState.Connected)
            then (close_on_exit c).1 else c) ∧
  _clients a' = _clients a ∧ _currentState a' = _currentState a.
Proof.
  induction refs as [|r refs IH]; intros a client c Hc; cbn [foldl].
  - split; [|done]. rewrite Hc.
    by rewrite decide_False by (intros [Hin _]; by apply elem_of_nil in Hin).
  - destruct (closeIfConnected_frame a r) as (M & S).
    destruct (decide (r = client)) as [->|Hne].
    + pose proof (closeIfConnected_self a client c Hc) as L.
      destruct (decide (_state c = RuntimeClientState.Connected)) as [Hconn|Hconn].
      * destruct (IH _ client _ L) as (-> & -> & ->).
        split; [|done].
        rewrite decide_False.
        { rewrite decide_True; [done|]. split; [left | done]. }
        intros [_ Hx]. by destruct (close_on_exit_facts c) as (Hclosed & _).
      * destruct (IH _ client _ L) as (-> & -> & ->).
        split; [|done].
        by rewrite !decide_False by (by intros [_ ?]).
    + pose proof (closeIfConnected_other a r client Hne) as L. rewrite Hc in L.
      destruct (IH _ client c L) as (-> & -> & ->).
      split; [|done]. f_equal. apply decide_ext.
      rewrite elem_of_cons. split.
      * intros [? ?]. split; [by right | done].
      * intros [[?|?] ?]; [congruence | done].
Qed.

Lemma trace_extends_closeIfConnected a r : trace_extends a (closeIfConnected a r).
Proof.
  unfold closeIfConnected. destruct (clientObjects a !! r); [|apply trace_extends_refl].
  case_decide; [apply trace_extends_onClient | apply trace_extends_refl].
Qed.

Lemma trace_extends_exited_loop refs : ∀ a,
  trace_extends a (foldl closeIfConnected a refs).
Proof.
  induction refs as [|r refs IH]; intros a; cbn [foldl]; [apply trace_extends_refl|].
  eapply trace_extends_trans; [apply trace_extends_closeIfConnected | apply IH].
Qed.

(** The loop of the Exited listener, as the subscribers of a connected
    client see it. *)
Lemma exited_loop_trace refs : ∀ a client c,
  clientObjects a !! client = Some c →
  client ∈ refs → _state c = RuntimeClientState.Connected →
  ∃ before after,
    trace (foldl closeIfConnected a refs)
      = trace a ++ before
          ++ [Fire (onDidChangeClientState (_id c) RuntimeClientState.Closing);
              Fire (onDidChangeClientState (_id c) RuntimeClientState.Closed)]
          ++ after.
Proof.
  induction refs as [|r refs IH]; intros a client c Hc Hin Hconn.
  { by apply elem_of_nil in Hin. }
  cbn [foldl]. destruct (decide (r = client)) as [->|Hne].
  - destruct (trace_extends_exited_loop refs (closeIfConnected a client)) as [es ->].
    exists [], es. unfold closeIfConnected, getClientState. rewrite Hc.
    rewrite decide_True by done.
    destruct (onClient_lookup_eq client close_on_exit a c Hc) as (_ & T & _).
    unfold close_on_exit in T. rewrite T.
    destruct (close_on_exit_facts c) as (_ & _ & _ & E).
    unfold close_on_exit in E. rewrite E.
    by rewrite <- !app_assoc.
  - apply elem_of_cons in Hin as [->|Hin]; [done|].
    pose proof (closeIfConnected_other a r client Hne) as L. rewrite Hc in L.
    destruct (IH _ client c L Hin Hconn) as (before & after & ->).
    destruct (trace_extends_closeIfConnected a r) as [es ->].
    exists (es ++ before), after. by rewrite <- !app_assoc.
Qed.

(** C3, as the code has it: when the Exited state is fired, every
    registered client that is Connected is set to Closing, then to Closed,
    and disposed: its state subscribers are handed Closing and then Closed
    before the subscribers of the runtime state are handed Exited, and the
    instance ends Closed and disposed. A registered client in any other
    state is left as it is. The map of clients is emptied. *)
Theorem exited_closes_connected_clients a client c :
  clientObjects a !! client = Some c →
  let a' := fireState RuntimeState.Exited a in
  getRuntimeState a' = RuntimeState.Exited ∧
  _clients a' = [] ∧
  clientObjects a' !! client
    = Some (if decide (client ∈ JsMap.values (_clients a) ∧
                       _state c = RuntimeClientState.Connected)
            then (close_on_exit c).1 else c) ∧
  _state (close_on_exit c).1 = RuntimeClientState.Closed ∧
  _isDisposed (close_on_exit c).1 = true ∧
  (close_on_exit c).2
    = [Fire (onDidChangeClientState (_id c) RuntimeClientState.Closing);
       Fire (onDidChangeClientState (_id c) RuntimeClientState.Closed)] ∧
  (client ∈ JsMap.values (_clients a) →
   _state c = RuntimeClientState.Connected →
   (∃ c', clientObjects a' !! client = Some c' ∧
          _state c' = RuntimeClientState.Closed ∧ _isDisposed c' = true) ∧
   ∃ before after,
     trace a'
       = trace a ++ before
           ++ [Fire (onDidChangeClientState (_id c) RuntimeClientState.Closing);
               Fire (onDidChangeClientState (_id c) RuntimeClientState.Closed)]
           ++ after
           ++ [Fire (onDidChangeRuntimeState RuntimeState.Exited)]) ∧
  (¬ (client ∈ JsMap.values (_clients a) ∧
      _state c = RuntimeClientState.Connected) →
   clientObjects a' !! client = Some c).
Proof.
  intros Hc a'.
  pose proof (exited_loop (JsMap.values (_clients a))
                (with_currentState RuntimeState.Exited a) client c Hc) as Hloop.
  cbn zeta in Hloop. destruct Hloop as (L & M & S).
  pose proof (exited_loop_trace (JsMap.values (_clients a))
                (with_currentState RuntimeState.Exited a) client c Hc) as Htrace.
  unfold a', fireState, stateListener, getRuntimeState.
  rewrite decide_True by done.
  cbn [_currentState _clients clientObjects trace emit with_trace with_clients
       with_currentState JsMap.clear] in *.
  split; [exact S|]. split; [done|]. split; [exact L|].
  split; [done|]. split; [done|]. split; [done|]. split.
  - intros Hin Hconn. split.
    + rewrite L, decide_True by done. by eexists.
    + destruct (Htrace Hin Hconn) as (before & after & ->).
      exists before, after. by rewrite <- !app_assoc.
  - intros Hno. by rewrite L, decide_False.
Qed.

(** ** Late events, as the subscribers see them *)

Section LateDispatch.
Context (host : HostDeclarations).

Lemma onClient_trace client f a :
  trace (onClient client f a)
    = trace a ++ match clientObjects a !! client with
                 | Some c => (f c).2
                 | None => []
                 end.
Proof.
  unfold onClient. destruct (clientObjects a !! client) as [c|].
  - by destruct (f c).
  - by rewrite app_nil_r.
Qed.

Lemma processMessage_trace m a :
  trace (processMessage host m a) = trace a ++ dispatched host m a.
Proof.
  unfold processMessage, dispatched.
  destruct (msg_type m); try reflexivity.
  - unfold openClientInstance. case_bool_decide; cbn [negb]; [|reflexivity].
    unfold newClient. cbn [trace emit with_trace].
    rewrite onClient_trace. cbn [clientObjects with_clients with_clientObjects trace].
    rewrite lookup_app_r by done. rewrite Nat.sub_diag. cbn.
    by rewrite <- app_assoc.
  - unfold emitDidReceiveClientMessage.
    destruct (JsMap.get _ _) as [client|]; [|reflexivity].
    rewrite onClient_trace. destruct (clientObjects a !! client) as [c|]; [|done].
    unfold emitData. by case_match.
  - unfold emitClientState.
    destruct (JsMap.get _ _) as [client|]; [|reflexivity].
    rewrite onClient_trace. by destruct (clientObjects a !! client) as [c|].
Qed.

(** C4: an event whose clock is strictly below the observed clock. A
    message event is dispatched on arrival: after the warning, the
    subscribers are handed the message as [dispatched] spells out for its
    category (the emitter of the category fires it; a comm message reaches
    the instance registered under its comm id), and the event is recorded as
    delivered. A state-change event leaves the adapter as it is: nothing is
    fired or delivered and the runtime state is unchanged. *)
Theorem late_event_message_emitted_state_dropped a e :
  clock e < _eventClock a →
  match e with
  | QueuedRuntimeMessageEvent c message =>
      let a' := addToEventQueue host e a in
      a' = processMessage host message
             (with_delivered (delivered a ++ [e])
                (log warn (late_warning host e a) a)) ∧
      delivered a' = delivered a ++ [e] ∧
      Log warn (late_warning host e a) ∈ trace a' ∧
      trace a' = trace a ++ [Log warn (late_warning host e a)]
                         ++ dispatched host message a ∧
      (∀ client c, msg_type message = LanguageRuntimeMessageType.CommData →
         JsMap.get (comm_id message) (_clients a) = Some client →
         clientObjects a !! client = Some c →
         clientObjects a' !! client = Some (emitData message c).1) ∧
      (∀ client c, msg_type message = LanguageRuntimeMessageType.CommClosed →
         JsMap.get (comm_id message) (_clients a) = Some client →
         clientObjects a !! client = Some c →
         clientObjects a' !! client
           = Some (with_state RuntimeClientState.Closed c)) ∧
      (msg_type message = LanguageRuntimeMessageType.CommOpen →
       target_name message ∈ RuntimeClientType_values host →
       JsMap.get (comm_id message) (_clients a') = Some (length (clientObjects a)) ∧
       clientObjects a' !! length (clientObjects a)
         = Some (with_state RuntimeClientState.Connected
                   (new_ExtHostRuntimeClientInstance (comm_id message)
                      (target_name message) (handle a))))
  | QueuedRuntimeStateEvent c state =>
      addToEventQueue host e a = a ∧
      getRuntimeState (addToEventQueue host e a) = getRuntimeState a ∧
      delivered (addToEventQueue host e a) = delivered a ∧
      trace (addToEventQueue host e a) = trace a
  end.
Proof.
  intros Hlate. destruct e as [c m|c s]; simpl in Hlate.
  - cbn zeta. rewrite addToEventQueue_late_message by done.
    destruct (emit_late_facts host (QueuedRuntimeMessageEvent c m) m a)
      as [(_&_&_&_&Hd) Hw].
    split; [done|]. split; [exact Hd|]. split; [exact Hw|].
    unfold emit_late.
    set (b := with_delivered _ _).
    split; [|split; [|split]].
    + rewrite processMessage_trace. unfold b. cbn [trace log emit with_trace with_delivered].
      by rewrite <- app_assoc.
    + intros client x Hm Hget Hx. unfold processMessage, emitDidReceiveClientMessage.
      rewrite Hm. change (_clients b) with (_clients a). rewrite Hget.
      by apply (onClient_lookup_eq client (emitData m) b x).
    + intros client x Hm Hget Hx. unfold processMessage, emitClientState.
      rewrite Hm. change (_clients b) with (_clients a). rewrite Hget.
      by apply (onClient_lookup_eq client (setClientState RuntimeClientState.Closed) b x).
    + intros Hm Hin. unfold processMessage, openClientInstance. rewrite Hm.
      rewrite bool_decide_eq_true_2 by done. cbn [negb]. unfold newClient.
      cbn [emit with_trace _clients clientObjects].
      set (c0 := new_ExtHostRuntimeClientInstance _ _ _).
      match goal with |- context [onClient ?r ?f ?x] =>
        assert (Hx : clientObjects x !! r = Some c0);
        [|destruct (onClient_lookup_eq r f x c0 Hx) as (L & _ & M)] end.
      { cbn. rewrite lookup_app_r by done. by rewrite Nat.sub_diag. }
      change (clientObjects b) with (clientObjects a) in *.
      split; [|exact L]. rewrite M. cbn. apply get_set_eq.
  - by rewrite addToEventQueue_late_state.
Qed.
End LateDispatch.

Section ClientState.
Context (host : HostDeclarations).

(** C9: the same Comm-closed message dispatched twice, for a comm id the
    adapter knows. Both times the call returns with the client in the
    Closed state; each dispatch only fires the Closed state on the client's
    state emitter; the client is not disposed, its pending RPCs and their
    promises are untouched, and no proxy call (such as the removal request)
    is made by either dispatch. *)
Theorem comm_closed_twice a m client c :
  msg_type m = LanguageRuntimeMessageType.CommClosed →
  JsMap.get (comm_id m) (_clients a) = Some client →
  clientObjects a !! client = Some c →
  let a1 := processMessage host m a in
  let a2 := processMessage host m a1 in
  let closed := Fire (onDidChangeClientState (_id c) RuntimeClientState.Closed) in
  clientObjects a1 !! client = Some (with_state RuntimeClientState.Closed c) ∧
  clientObjects a2 !! client = Some (with_state RuntimeClientState.Closed c) ∧
  trace a1 = trace a ++ [closed] ∧
  trace a2 = trace a1 ++ [closed] ∧
  (∀ call, Proxy call ∈ trace a2 → Proxy call ∈ trace a) ∧
  _pendingRpcs (with_state RuntimeClientState.Closed c) = _pendingRpcs c ∧
  promises (with_state RuntimeClientState.Closed c) = promises c ∧
  _isDisposed (with_state RuntimeClientState.Closed c) = _isDisposed c.
Proof.
  intros Hm Hget Hc a1 a2 closed.
  assert (E1 : a1 = onClient client (setClientState RuntimeClientState.Closed) a).
  { unfold a1, processMessage, emitClientState. by rewrite Hm, Hget. }
  destruct (onClient_lookup_eq client (setClientState RuntimeClientState.Closed) a c Hc)
    as (L1 & T1 & M1).
  rewrite <- E1 in L1, T1, M1. simpl in L1, T1.
  assert (E2 : a2 = onClient client (setClientState RuntimeClientState.Closed) a1).
  { unfold a2, processMessage, emitClientState. by rewrite Hm, M1, Hget. }
  destruct (onClient_lookup_eq client (setClientState RuntimeClientState.Closed) a1 _ L1)
    as (L2 & T2 & M2).
  rewrite <- E2 in L2, T2, M2. simpl in L2, T2.
  repeat split; try done.
  intros call. rewrite T2, T1, !elem_of_app, !list_elem_of_singleton.
  intros [[?|?]|?]; done.
Qed.

End ClientState.

(** ** Creation of a client *)

Lemma newClient_facts id type a :
  let '(client, a') := newClient id type a in
  client = length (clientObjects a) ∧
  clientObjects a' !! client
    = Some (new_ExtHostRuntimeClientInstance id type (handle a)) ∧
  (∀ r c, clientObjects a !! r = Some c → clientObjects a' !! r = Some c ∧ r ≠ client) ∧
  _clients a' = _clients a.
Proof.
  unfold newClient. simpl. split; [done|]. split.
  - rewrite lookup_app_r by done. by rewrite Nat.sub_diag.
  - split; [|done]. intros r c Hr. split.
    + by apply lookup_app_l_Some.
    + apply lookup_lt_Some in Hr. lia.
Qed.

(** What each call does to a client that is not connected. *)

Lemma not_connected_onClient client r f a :
  client_not_connected a client →
  (r = client → ∀ c, _state c ≠ RuntimeClientState.Connected →
                     _state (f c).1 ≠ RuntimeClientState.Connected) →
  client_not_connected (onClient r f a) client.
Proof.
  intros (c & Hc & Hs) Hf. destruct (decide (r = client)) as [->|Hne].
  - exists (f c).1. split; [|by apply Hf].
    by apply onClient_lookup_eq.
  - exists c. by rewrite onClient_lookup_ne.
Qed.

Lemma not_connected_same_objects client a b :
  clientObjects b = clientObjects a →
  client_not_connected a client → client_not_connected b client.
Proof. unfold client_not_connected. by intros ->. Qed.

Lemma not_connected_alloc client c0 a :
  client_not_connected a client →
  client_not_connected (with_clientObjects (clientObjects a ++ [c0]) a) client ∧
  length (clientObjects a) ≠ client.
Proof.
  intros (c & Hc & Hs). split.
  - exists c. split; [|done]. simpl. by apply lookup_app_l_Some.
  - apply lookup_lt_Some in Hc. lia.
Qed.

Lemma dispose_not_connected c :
  _state (dispose c).1 = RuntimeClientState.Closed.
Proof.
  unfold dispose. cbn zeta.
  cbn [_state with_promises with_isDisposed].
  destruct (_state c) eqn:Hs; simpl; try done.
Qed.

Lemma not_connected_closeIfConnected client a r :
  client_not_connected a client →
  client_not_connected (closeIfConnected a r) client.
Proof.
  intros H. unfold closeIfConnected.
  destruct (clientObjects a !! r); [|done]. case_decide; [|done].
  apply not_connected_onClient; [done|]. intros _ c _.
  destruct (close_on_exit_facts c) as (Hclosed & _).
  unfold close_on_exit in Hclosed. by rewrite Hclosed.
Qed.

Lemma not_connected_fireState client state a :
  client_not_connected a client →
  client_not_connected (fireState state a) client.
Proof.
  intros H. unfold fireState, stateListener.
  apply (not_connected_same_objects client
           (if decide (state = RuntimeState.Exited)
            then foldl closeIfConnected (with_currentState state a)
                   (JsMap.values (_clients (with_currentState state a)))
            else with_currentState state a)).
  { by case_decide. }
  case_decide; [|done].
  apply (foldl_invariant (λ b, client_not_connected b client)); [|done].
  intros b r Hb. by apply not_connected_closeIfConnected.
Qed.

Ltac keep_objects :=
  match goal with
  | H : client_not_connected ?a ?client |- client_not_connected ?b ?client =>
      apply (not_connected_same_objects client a b); [reflexivity | exact H]
  end.

Section Creation.
Context (host : HostDeclarations).

Lemma not_connected_processMessage client message a :
  client_not_connected a client →
  client_not_connected (processMessage host message a) client.
Proof.
  intros H. unfold processMessage.
  destruct (msg_type message); try keep_objects.
  - unfold openClientInstance, newClient. case_match; [keep_objects|].
    destruct (not_connected_alloc client
                (new_ExtHostRuntimeClientInstance (comm_id message)
                   (target_name message) (handle a)) a H) as [Ha Hne].
    match goal with
    | |- client_not_connected (emit _ ?x) _ =>
        apply (not_connected_same_objects client x); [reflexivity|]
    end.
    apply not_connected_onClient; [keep_objects | done].
  - unfold emitDidReceiveClientMessage. case_match; [|keep_objects].
    apply not_connected_onClient; [done|]. intros _ c Hc.
    unfold emitData. case_match; [|done]. by case_match.
  - unfold emitClientState. case_match; [|keep_objects].
    by apply not_connected_onClient.
Qed.

Lemma not_connected_deliver client a e :
  client_not_connected a client →
  client_not_connected (deliver host a e) client.
Proof.
  intros H. unfold deliver. destruct e; simpl.
  - by apply not_connected_processMessage.
  - by apply not_connected_fireState.
Qed.

Lemma not_connected_processEventQueue client a :
  client_not_connected a client →
  client_not_connected (processEventQueue host a) client.
Proof.
  intros H. unfold processEventQueue. cbn zeta.
  match goal with
  | |- client_not_connected (with_eventQueue [] ?x) _ =>
      apply (not_connected_same_objects client x); [reflexivity|]
  end.
  apply (foldl_invariant (λ b, client_not_connected b client)).
  { intros b e Hb. by apply not_connected_deliver. }
  destruct (_eventQueueTimer a); case_decide; keep_objects.
Qed.

Lemma not_connected_addToEventQueue client e a :
  client_not_connected a client →
  client_not_connected (addToEventQueue host e a) client.
Proof.
  intros H. unfold addToEventQueue. cbn zeta. case_decide.
  - destruct e; [|done]. apply not_connected_processMessage. keep_objects.
  - case_decide.
    + apply not_connected_processEventQueue. keep_objects.
    + cbn [_eventQueueTimer log emit with_trace with_eventQueue].
      destruct (_eventQueueTimer a); keep_objects.
Qed.

Lemma not_connected_step client a call :
  client_not_connected a client →
  (∀ id, call ≠ call_createClient_then client id) →
  client_not_connected (step host a call) client.
Proof.
  intros H Hcall. destruct call; cbn [step].
  - by apply not_connected_addToEventQueue.
  - by apply not_connected_addToEventQueue.
  - unfold eventQueueTimeout. destruct (_eventQueueTimer a); [|done].
    apply not_connected_processEventQueue. keep_objects.
  - unfold createClient, newClient.
    destruct (generateClientId _ _ _ _) as [id n]. cbn [fst snd].
    destruct (not_connected_alloc client
                (new_ExtHostRuntimeClientInstance id type (handle a)) a H) as [Ha Hne].
    match goal with
    | |- client_not_connected (emit _ ?x) _ =>
        apply (not_connected_same_objects client x); [reflexivity|]
    end.
    apply not_connected_onClient; [keep_objects | done].
  - unfold createClient_then. destruct (clientObjects a !! client0) eqn:H0; [|done].
    case_decide; [|keep_objects].
    apply not_connected_onClient; [done|].
    intros ->. by destruct (Hcall id).
  - unfold createClient_catch.
    match goal with
    | |- client_not_connected (with_clients _ ?x) _ =>
        apply (not_connected_same_objects client x); [reflexivity|]
    end.
    apply not_connected_onClient; [keep_objects | done].
  - unfold listClients_then.
    apply (foldl_invariant (λ p, client_not_connected p.2 client)); [|done].
    intros [instances b] [key clientType] Hb. cbn [fst snd] in *.
    destruct (JsMap.get key (_clients b)); [done|].
    case_bool_decide; [|cbn [snd]; keep_objects].
    unfold newClient. cbn [fst snd].
    destruct (not_connected_alloc client
                (new_ExtHostRuntimeClientInstance key clientType (handle b)) b Hb)
      as [Ha Hne].
    match goal with
    | |- client_not_connected (with_clients _ ?x) _ =>
        apply (not_connected_same_objects client x); [reflexivity|]
    end.
    apply not_connected_onClient; [keep_objects | done].
  - unfold interrupt. pose proof (not_connected_fireState client RuntimeState.Interrupting a H).
    keep_objects.
  - unfold restart. pose proof (not_connected_fireState client RuntimeState.Restarting a H).
    keep_objects.
  - unfold shutdown. pose proof (not_connected_fireState client RuntimeState.Exiting a H).
    keep_objects.
  - apply not_connected_onClient; [done|]. by intros _ c Hc.
  - apply not_connected_onClient; [done|]. intros _ c Hc.
    unfold performRpc_timeout. destruct (promises c !! promise); [|done].
    by case_match.
  - by apply not_connected_onClient.
  - apply not_connected_onClient; [done|]. intros _ c _.
    by rewrite dispose_not_connected.
Qed.

Lemma createClient_facts a type params random clientCounter :
  let id := (generateClientId (languageId (metadata a)) type random clientCounter).1 in
  let client := (createClient type params random clientCounter a).1.1 in
  let a1 := (createClient type params random clientCounter a).2 in
  client = length (clientObjects a) ∧
  clientObjects a1 !! client
    = Some (with_state RuntimeClientState.Opening
              (new_ExtHostRuntimeClientInstance id type (handle a))) ∧
  JsMap.get id (_clients a1) = Some client ∧
  Proxy (proxy_createClient (handle a) id type params) ∈ trace a1.
Proof.
  unfold createClient, newClient.
  destruct (generateClientId _ _ _ _) as [id n]. cbn [fst snd].
  set (c0 := new_ExtHostRuntimeClientInstance id type (handle a)).
  set (b := log info _ _).
  assert (Hb : clientObjects b !! length (clientObjects a) = Some c0).
  { unfold b. simpl. rewrite lookup_app_r by done. by rewrite Nat.sub_diag. }
  destruct (onClient_lookup_eq (length (clientObjects a))
              (setClientState RuntimeClientState.Opening) b c0 Hb) as (L & T & M).
  split; [done|]. split; [exact L|]. split.
  - cbn [_clients emit with_trace]. rewrite M. unfold b. simpl. apply get_set_eq.
  - cbn [trace emit with_trace]. apply elem_of_app. right.
    apply list_elem_of_singleton. f_equal. f_equal.
    unfold onClient. rewrite Hb. done.
Qed.

Lemma createClient_then_state client id b s :
  client_in_state b client s →
  client_in_state (createClient_then client id b) client
    (if decide (s = RuntimeClientState.Opening)
     then RuntimeClientState.Connected else s).
Proof.
  intros (c & Hc & <-). unfold createClient_then, getClientState. rewrite Hc.
  case_decide.
  - exists (with_state RuntimeClientState.Connected c). split; [|done].
    by apply (onClient_lookup_eq client
                (setClientState RuntimeClientState.Connected) b c).
  - by exists c.
Qed.

Lemma createClient_catch_state client id err b s :
  client_in_state b client s →
  client_in_state (createClient_catch client id err b) client
    RuntimeClientState.Closed ∧
  JsMap.get id (_clients (createClient_catch client id err b)) = None.
Proof.
  intros (c & Hc & _). unfold createClient_catch. split.
  - exists (with_state RuntimeClientState.Closed c). split; [|done].
    cbn [clientObjects with_clients].
    by apply (onClient_lookup_eq client
                (setClientState RuntimeClientState.Closed)).
  - cbn [_clients with_clients]. apply get_delete_eq.
Qed.

Lemma comm_closed_state m client a s :
  msg_type m = LanguageRuntimeMessageType.CommClosed →
  JsMap.get (comm_id m) (_clients a) = Some client →
  client_in_state a client s →
  client_in_state (processMessage host m a) client RuntimeClientState.Closed.
Proof.
  intros Hm Hget (c & Hc & _). unfold processMessage, emitClientState.
  rewrite Hm, Hget.
  exists (with_state RuntimeClientState.Closed c). split; [|done].
  by apply (onClient_lookup_eq client (setClientState RuntimeClientState.Closed)).
Qed.

Lemma comm_closed_unregistered m a :
  msg_type m = LanguageRuntimeMessageType.CommClosed →
  JsMap.get (comm_id m) (_clients a) = None →
  clientObjects (processMessage host m a) = clientObjects a ∧
  _clients (processMessage host m a) = _clients a ∧
  ∃ text, trace (processMessage host m a) = trace a ++ [Log warn text].
Proof.
  intros Hm Hget. unfold processMessage, emitClientState. rewrite Hm, Hget.
  split; [done|]. split; [done|]. by eexists.
Qed.

(** C6: [createClient] hands back at once an instance it has registered and
    put in the Opening state, after sending the creation request. When the
    request settles successfully the instance becomes Connected if it is
    still Opening, and keeps its state otherwise; when the request fails it
    becomes Closed and is unregistered. A Comm-closed message for its id
    that arrives while the instance is registered under that id makes it
    Closed, and the acknowledgement then leaves it Closed; once the id is
    no longer registered, such a message is only logged, the instance
    keeps its state, and the acknowledgement connects it if it is still
    Opening. No call other than the acknowledgement for this instance
    makes it Connected. *)
Theorem createClient_lifecycle a type params random clientCounter :
  let id := (generateClientId (languageId (metadata a)) type random clientCounter).1 in
  let client := (createClient type params random clientCounter a).1.1 in
  let a1 := (createClient type params random clientCounter a).2 in
  client_in_state a1 client RuntimeClientState.Opening ∧
  JsMap.get id (_clients a1) = Some client ∧
  Proxy (proxy_createClient (handle a) id type params) ∈ trace a1 ∧
  (∀ b s, client_in_state b client s →
     client_in_state (createClient_then client id b) client
       (if decide (s = RuntimeClientState.Opening)
        then RuntimeClientState.Connected else s)) ∧
  (∀ b s err, client_in_state b client s →
     client_in_state (createClient_catch client id err b) client
       RuntimeClientState.Closed ∧
     JsMap.get id (_clients (createClient_catch client id err b)) = None) ∧
  (∀ b s m, msg_type m = LanguageRuntimeMessageType.CommClosed → comm_id m = id →
     client_in_state b client s →
     JsMap.get id (_clients b) = Some client →
     client_in_state (processMessage host m b) client RuntimeClientState.Closed ∧
     client_in_state (createClient_then client id (processMessage host m b))
       client RuntimeClientState.Closed) ∧
  (∀ b s m, msg_type m = LanguageRuntimeMessageType.CommClosed → comm_id m = id →
     client_in_state b client s →
     JsMap.get id (_clients b) = None →
     client_in_state (processMessage host m b) client s ∧
     (∃ text, trace (processMessage host m b) = trace b ++ [Log warn text]) ∧
     client_in_state (createClient_then client id (processMessage host m b)) client
       (if decide (s = RuntimeClientState.Opening)
        then RuntimeClientState.Connected else s)) ∧
  (∀ b call, client_not_connected b client →
     (∀ id', call ≠ call_createClient_then client id') →
     client_not_connected (step host b call) client).
Proof.
  intros id client a1.
  destruct (createClient_facts a type params random clientCounter)
    as (Hclient & L & M & T).
  fold id client a1 in Hclient, L, M, T.
  assert (Hopening : client_in_state a1 client RuntimeClientState.Opening).
  { eexists. split; [exact L | done]. }
  split; [exact Hopening|]. split; [exact M|]. split; [exact T|].
  split; [intros b s; apply createClient_then_state|].
  split; [intros b s err; apply createClient_catch_state|].
  split; [|split].
  - intros b s m Hm Hid Hs Hget.
    assert (Hclosed : client_in_state (processMessage host m b) client
                        RuntimeClientState.Closed).
    { eapply comm_closed_state; [done | by rewrite Hid | exact Hs]. }
    split; [exact Hclosed|].
    by apply (createClient_then_state client id _ RuntimeClientState.Closed).
  - intros b s m Hm Hid Hs Hget. rewrite <- Hid in Hget.
    destruct (comm_closed_unregistered m b Hm Hget) as (Hobj & _ & Htext).
    assert (Hsame : client_in_state (processMessage host m b) client s).
    { destruct Hs as (c & Hc & Hst). exists c. by rewrite Hobj. }
    split; [exact Hsame|]. split; [exact Htext|].
    by apply createClient_then_state.
  - intros b call. apply not_connected_step.
Qed.

End Creation.

(** ** Pending RPCs *)

Lemma settle_lookup_eq f p ps d :
  ps !! p = Some d → settle f p ps !! p = Some (f d).
Proof.
  intros Hp. unfold settle. rewrite Hp.
  apply list_lookup_insert_eq. by eapply lookup_lt_Some.
Qed.

Lemma settle_lookup_ne f p q ps : p ≠ q → settle f p ps !! q = ps !! q.
Proof.
  intros Hne. unfold settle. destruct (ps !! p); [|done].
  by apply list_lookup_insert_ne.
Qed.

(** A settled promise keeps its outcome. *)
Lemma complete_settled value d : isSettled d = true → complete value d = d.
Proof. unfold complete. by intros ->. Qed.

Lemma error_settled err d : isSettled d = true → error err d = d.
Proof. unfold error. by intros ->. Qed.

Lemma settle_settled f p q ps d :
  (∀ d, isSettled d = true → f d = d) →
  ps !! q = Some d → isSettled d = true → settle f p ps !! q = Some d.
Proof.
  intros Hf Hq Hd. destruct (decide (p = q)) as [->|Hne].
  - rewrite (settle_lookup_eq f q ps d Hq). by rewrite Hf.
  - by rewrite settle_lookup_ne.
Qed.

Lemma performRpc_facts messageId request c :
  let promise := (performRpc messageId request c).1 in
  let c1 := (performRpc messageId request c).2.1 in
  promise = length (promises c) ∧
  promises c1 !! promise = Some {| outcome := None |} ∧
  JsMap.get messageId (_pendingRpcs c1) = Some promise ∧
  (performRpc messageId request c).2.2
    = [Proxy (proxy_sendClientMessage (_handle c) (_id c) messageId request)].
Proof.
  unfold performRpc. simpl. split; [done|]. split; [|split; [|done]].
  - rewrite lookup_app_r by done. by rewrite Nat.sub_diag.
  - apply get_set_eq.
Qed.

(** The response path: the promise is resolved and the entry removed. *)
Lemma response_resolves_and_removes m promise c :
  parent_id m ≠ "" →
  JsMap.get (parent_id m) (_pendingRpcs c) = Some promise →
  promises c !! promise = Some {| outcome := None |} →
  promises (emitData m c).1 !! promise
    = Some {| outcome := Some (Resolved (data m)) |} ∧
  JsMap.get (parent_id m) (_pendingRpcs (emitData m c).1) = None.
Proof.
  intros Hne Hget Hp. unfold emitData, JsMap.has. rewrite Hget.
  rewrite bool_decide_true by done. simpl. split.
  - by rewrite (settle_lookup_eq _ _ _ _ Hp).
  - apply get_delete_eq.
Qed.

(** The timeout path: the promise is rejected with the timeout error, which
    quotes the request, and the entry is removed. *)
Lemma timeout_rejects_and_removes promise messageId request c :
  promises c !! promise = Some {| outcome := None |} →
  promises (performRpc_timeout promise messageId request c).1 !! promise
    = Some {| outcome := Some (Rejected ("RPC timed out after 5 seconds: " +:+ request)) |} ∧
  JsMap.get messageId
    (_pendingRpcs (performRpc_timeout promise messageId request c).1) = None.
Proof.
  intros Hp. unfold performRpc_timeout. rewrite Hp. simpl. split.
  - by rewrite (settle_lookup_eq _ _ _ _ Hp).
  - apply get_delete_eq.
Qed.

Lemma cancel_all_lookup refs : ∀ ps promise d,
  ps !! promise = Some d →
  foldl (λ ps p, settle (error "The language runtime exited before the RPC completed.") p ps)
    ps refs !! promise
  = Some (if decide (promise ∈ refs)
          then error "The language runtime exited before the RPC completed." d
          else d).
Proof.
  induction refs as [|r refs IH]; intros ps promise d Hp; cbn [foldl].
  - rewrite Hp. by rewrite decide_False by apply not_elem_of_nil.
  - destruct (decide (r = promise)) as [->|Hne].
    + rewrite (IH _ promise _ (settle_lookup_eq _ _ _ _ Hp)).
      rewrite (decide_True (P := promise ∈ promise :: refs)) by left.
      f_equal. case_decide; [|done].
      apply error_settled. unfold error. by destruct (isSettled d) eqn:Hd.
    + rewrite (IH _ promise d) by by rewrite settle_lookup_ne.
      f_equal. apply decide_ext. rewrite elem_of_cons. split.
      * by right.
      * intros [?|?]; [congruence | done].
Qed.

(** The dispose path: the promise is rejected, and the map of pending RPCs
    is left as it was. *)
Lemma dispose_rejects_and_keeps messageId promise c :
  JsMap.get messageId (_pendingRpcs c) = Some promise →
  promises c !! promise = Some {| outcome := None |} →
  promises (dispose c).1 !! promise
    = Some {| outcome := Some (Rejected "The language runtime exited before the RPC completed.") |} ∧
  _pendingRpcs (dispose c).1 = _pendingRpcs c.
Proof.
  intros Hget Hp.
  assert (Hin : promise ∈ JsMap.values (_pendingRpcs c)).
  { by eapply get_Some_values. }
  pose proof (cancel_all_lookup (JsMap.values (_pendingRpcs c)) _ _ _ Hp) as Hl.
  rewrite decide_True in Hl by done.
  unfold dispose. cbn zeta.
  cbn [_state with_promises with_isDisposed].
  destruct (_state c); simpl; by rewrite Hl.
Qed.

(** At most one settlement: no method of the instance changes the outcome
    of a settled promise. *)
Lemma settled_promise_is_final promise d c :
  promises c !! promise = Some d → isSettled d = true →
  (∀ m, promises (emitData m c).1 !! promise = Some d) ∧
  (∀ p messageId request,
     promises (performRpc_timeout p messageId request c).1 !! promise = Some d) ∧
  promises (dispose c).1 !! promise = Some d ∧
  (∀ messageId request,
     promises (performRpc messageId request c).2.1 !! promise = Some d) ∧
  (∀ messageId message, promises (sendMessage messageId message c).1 !! promise = Some d) ∧
  (∀ state, promises (setClientState state c).1 !! promise = Some d).
Proof.
  intros Hp Hd. repeat split.
  - intros m. unfold emitData. case_match; [|done].
    destruct (JsMap.get (parent_id m) (_pendingRpcs c)); [|done]. simpl.
    apply settle_settled; [apply complete_settled | done | done].
  - intros p messageId request. unfold performRpc_timeout.
    destruct (promises c !! p) as [d'|] eqn:Hp'; [|done].
    case_match; [done|]. simpl.
    apply settle_settled; [apply error_settled | done | done].
  - pose proof (cancel_all_lookup (JsMap.values (_pendingRpcs c)) _ _ _ Hp) as Hl.
    rewrite (error_settled _ d Hd) in Hl.
    assert (Hl' : foldl (λ ps p, settle (error "The language runtime exited before the RPC completed.") p ps)
                    (promises c) (JsMap.values (_pendingRpcs c)) !! promise = Some d).
    { rewrite Hl. by case_decide. }
    unfold dispose. cbn zeta. cbn [_state with_promises with_isDisposed].
    destruct (_state c); simpl; by rewrite Hl'.
  - intros messageId request. simpl. by apply lookup_app_l_Some.
  - by intros messageId message.
  - by intros state.
Qed.

(** C2: an RPC on a connected client that is disposed before any response.
    The promise is rejected by [dispose], but the correlation id is still in
    the map of pending RPCs afterwards, and it is still there after the
    timer has fired: the timer callback returns at once for a settled
    promise. *)
Theorem dispose_keeps_pending_rpc :
  let c0 := with_state RuntimeClientState.Connected
              (new_ExtHostRuntimeClientInstance "comm-1" "positron.environment" 7) in
  let promise := (performRpc "uuid-1" "{op:x}" c0).1 in
  let c1 := (performRpc "uuid-1" "{op:x}" c0).2.1 in
  let c2 := (dispose c1).1 in
  let c3 := (performRpc_timeout promise "uuid-1" "{op:x}" c2).1 in
  JsMap.get "uuid-1" (_pendingRpcs c1) = Some promise ∧
  promises c2 !! promise
    = Some {| outcome := Some (Rejected "The language runtime exited before the RPC completed.") |} ∧
  JsMap.get "uuid-1" (_pendingRpcs c2) = Some promise ∧
  JsMap.get "uuid-1" (_pendingRpcs c3) = Some promise.
Proof. vm_compute. done. Qed.

(** ** Closed comms and the map of clients *)

Section Registry.
Context (host : HostDeclarations).

(** A Comm-closed message leaves the map of clients as it is. *)
Lemma comm_closed_keeps_clients m a :
  msg_type m = LanguageRuntimeMessageType.CommClosed →
  _clients (processMessage host m a) = _clients a.
Proof.
  intros Hm. unfold processMessage, emitClientState. rewrite Hm.
  destruct (JsMap.get (comm_id m) (_clients a)); [|done].
  apply onClient_clients.
Qed.

End Registry.

(** C7: a comm opened by the runtime side and then closed by a Comm-closed
    message. The instance is in the Closed state and its id is still in the
    map of clients. *)
Theorem closed_comm_stays_registered :
  let open := example_message LanguageRuntimeMessageType.CommOpen 1 "comm-1" in
  let closed := example_message LanguageRuntimeMessageType.CommClosed 2 "comm-1" in
  let a := run example_host example_adapter
             [call_handleRuntimeMessage open; call_handleRuntimeMessage closed] in
  delivered a = [QueuedRuntimeMessageEvent 1 open; QueuedRuntimeMessageEvent 2 closed] ∧
  JsMap.get "comm-1" (_clients a) = Some 0%nat ∧
  client_in_state a 0 RuntimeClientState.Closed.
Proof.
  vm_compute. split; [done|]. split; [done|]. eexists. split; done.
Qed.

(** ** Unknown handles *)

Section Handles.
Context (host : HostDeclarations).

(** C10: a message or a state change for a handle that is not in the table
    of runtimes makes the entry point throw the error "Unknown language
    runtime handle"; nothing is logged or dropped. For a handle that is in
    the table the entry points return normally, and a message or a state
    change for a comm id that is not in the map of clients only logs a
    warning. *)
Theorem unknown_handle_throws mt handle :
  JsMap.get handle (_runtimes mt) = None →
  (∀ message,
     emitLanguageRuntimeMessage host handle message mt
       = Throw (Error ("Unknown language runtime handle: " +:+ pretty handle))) ∧
  (∀ clock state,
     emitLanguageRuntimeState host handle clock state mt
       = Throw (Error ("Unknown language runtime handle: " +:+ pretty handle))) ∧
  (∀ known runtime message,
     JsMap.get known (_runtimes mt) = Some runtime →
     emitLanguageRuntimeMessage host known message mt
       = Normal {| _runtimes :=
                     JsMap.set known (handleRuntimeMessage host message runtime)
                       (_runtimes mt) |}) ∧
  (∀ a message,
     JsMap.get (comm_id message) (_clients a) = None →
     emitDidReceiveClientMessage host message a
       = log warn ("Client instance '" +:+ comm_id message +:+
                   "' not found; dropping message: " +:+
                   JSON_stringify host message) a ∧
     emitClientState host (comm_id message) RuntimeClientState.Closed a
       = log warn ("Client instance '" +:+ comm_id message +:+
                   "' not found; dropping state change: " +:+
                   RuntimeClientState_text host RuntimeClientState.Closed) a).
Proof.
  intros Hnone. repeat split.
  - intros message. unfold emitLanguageRuntimeMessage, findRuntime. by rewrite Hnone.
  - intros clock state. unfold emitLanguageRuntimeState, findRuntime. by rewrite Hnone.
  - intros known runtime message Hsome.
    unfold emitLanguageRuntimeMessage, findRuntime. by rewrite Hsome.
  - unfold emitDidReceiveClientMessage. by rewrite H.
  - unfold emitClientState. by rewrite H.
Qed.

End Handles.

(** ** The properties at concrete inputs *)



(** A client that is still Opening when the runtime exits stays Opening
    and is not disposed, while the map of clients is emptied. *)
Lemma exited_leaves_opening_client_counterexample :
  let created := createClient "positron.environment" "{}" 4076792474 0 example_adapter in
  let client := created.1.1 in
  let a := emitState example_host 1 RuntimeState.Exited created.2 in
  client_in_state created.2 client RuntimeClientState.Opening ∧
  JsMap.get "positron-environment-python-0-f2feea9a" (_clients created.2) = Some client ∧
  getRuntimeState a = RuntimeState.Exited ∧
  _clients a = [] ∧
  client_in_state a client RuntimeClientState.Opening ∧
  ¬ client_in_state a client RuntimeClientState.Closed ∧
  (∀ c, clientObjects a !! client = Some c → _isDisposed c = false).
Proof.
  intros created client a.
  assert (Hc : clientObjects a !! client
               = Some (with_state RuntimeClientState.Opening
                         (new_ExtHostRuntimeClientInstance
                            "positron-environment-python-0-f2feea9a"
                            "positron.environment" 7))) by reflexivity.
  split; [eexists; split; reflexivity|].
  split; [reflexivity|]. split; [reflexivity|]. split; [reflexivity|].
  split; [eexists; split; [exact Hc | done]|].
  split.
  - intros (c & Hc' & Hs). rewrite Hc in Hc'. by injection Hc' as <-.
  - intros c Hc'. rewrite Hc in Hc'. by injection Hc' as <-.
Qed.

Lemma exited_closes_connected_clients_witness :
  let open := example_message LanguageRuntimeMessageType.CommOpen 1 "comm-1" in
  let a := handleRuntimeMessage example_host open example_adapter in
  let a' := fireState RuntimeState.Exited a in
  client_in_state a 0 RuntimeClientState.Connected ∧
  client_in_state a' 0 RuntimeClientState.Closed ∧ _clients a' = [] ∧
  (∃ c', clientObjects a' !! 0%nat = Some c' ∧
         _state c' = RuntimeClientState.Closed ∧ _isDisposed c' = true) ∧
  trace a'
    = trace a ++ [Fire (onDidChangeClientState "comm-1" RuntimeClientState.Closing);
                  Fire (onDidChangeClientState "comm-1" RuntimeClientState.Closed);
                  Fire (onDidChangeRuntimeState RuntimeState.Exited)].
Proof.
  intros open a a'.
  assert (Hc : clientObjects a !! 0%nat
               = Some (with_state RuntimeClientState.Connected
                         (new_ExtHostRuntimeClientInstance "comm-1"
                            "positron.environment" 7))) by reflexivity.
  destruct (exited_closes_connected_clients a 0 _ Hc) as (_ & Hm & Hl & _ & _ & _ & Ht & _).
  destruct Ht as (Hobj & _); [by apply (bool_decide_unpack _) | reflexivity |].
  split; [eexists; split; [exact Hc | done]|].
  split; [eexists; split; [exact Hl | reflexivity]|].
  split; [exact Hm|]. split; [exact Hobj | reflexivity].
Defined.

Lemma late_event_witness :
  let a := submitAll example_host example_adapter [stream_at 5] in
  let late := example_message LanguageRuntimeMessageType.Stream 2 "" in
  _eventClock a = 5 ∧
  delivered (addToEventQueue example_host (stream_at 2) a) = [stream_at 5; stream_at 2] ∧
  Log warn "Received 'stream' at tick 2 while waiting for tick 6; emitting anyway"
    ∈ trace (addToEventQueue example_host (stream_at 2) a) ∧
  trace (addToEventQueue example_host (stream_at 2) a)
    = trace a
      ++ [Log warn "Received 'stream' at tick 2 while waiting for tick 6; emitting anyway";
          Fire (onDidReceiveRuntimeMessageStream late)] ∧
  addToEventQueue example_host (QueuedRuntimeStateEvent 2 RuntimeState.Busy) a = a.
Proof.
  intros a late.
  assert (Hlate : clock (stream_at 2) < _eventClock a) by (vm_compute; done).
  assert (Hlate' : clock (QueuedRuntimeStateEvent 2 RuntimeState.Busy) < _eventClock a)
    by (vm_compute; done).
  destruct (late_event_message_emitted_state_dropped example_host a (stream_at 2) Hlate)
    as (_ & Hd & Hw & Ht & _).
  destruct (late_event_message_emitted_state_dropped example_host a
              (QueuedRuntimeStateEvent 2 RuntimeState.Busy) Hlate') as (Hs & _).
  split; [reflexivity|]. split; [exact Hd|]. split; [exact Hw|].
  split; [exact Ht | exact Hs].
Defined.


(** A client whose creation request is still pending when the runtime
    exits, and which the remote side then closes: the Comm-closed message
    is dispatched but finds no client under the id, so the instance stays
    Opening, and the acknowledgement that follows makes it Connected. *)
Lemma remote_close_after_exit_counterexample :
  let created := createClient "positron.environment" "{}" 4076792474 0 example_adapter in
  let client := created.1.1 in
  let id := "positron-environment-python-0-f2feea9a" in
  let close := example_message LanguageRuntimeMessageType.CommClosed 2 id in
  let exited := emitState example_host 1 RuntimeState.Exited created.2 in
  let closed := handleRuntimeMessage example_host close exited in
  let acknowledged := createClient_then client id closed in
  client_in_state created.2 client RuntimeClientState.Opening ∧
  JsMap.get id (_clients created.2) = Some client ∧
  delivered closed = [QueuedRuntimeStateEvent 1 RuntimeState.Exited;
                      QueuedRuntimeMessageEvent 2 close] ∧
  client_in_state closed client RuntimeClientState.Opening ∧
  ¬ client_in_state closed client RuntimeClientState.Closed ∧
  client_in_state acknowledged client RuntimeClientState.Connected ∧
  ¬ client_in_state acknowledged client RuntimeClientState.Closed.
Proof.
  intros created client id close exited closed acknowledged.
  assert (Hc : clientObjects closed !! client
               = Some (with_state RuntimeClientState.Opening
                         (new_ExtHostRuntimeClientInstance id
                            "positron.environment" 7))) by reflexivity.
  assert (Ha : clientObjects acknowledged !! client
               = Some (with_state RuntimeClientState.Connected
                         (new_ExtHostRuntimeClientInstance id
                            "positron.environment" 7))) by reflexivity.
  split; [eexists; split; reflexivity|].
  split; [reflexivity|]. split; [reflexivity|].
  split; [eexists; split; [exact Hc | done]|].
  split; [intros (c & Hc' & Hs); rewrite Hc in Hc'; by injection Hc' as <-|].
  split; [eexists; split; [exact Ha | done]|].
  intros (c & Hc' & Hs). rewrite Ha in Hc'. by injection Hc' as <-.
Qed.

Lemma createClient_lifecycle_witness :
  let created := createClient "positron.environment" "{}" 4076792474 0 example_adapter in
  let id := "positron-environment-python-0-f2feea9a" in
  let close := example_message LanguageRuntimeMessageType.CommClosed 1 id in
  client_in_state created.2 created.1.1 RuntimeClientState.Opening ∧
  client_in_state (createClient_then created.1.1 id created.2)
    created.1.1 RuntimeClientState.Connected ∧
  client_in_state
    (createClient_then created.1.1 id (processMessage example_host close created.2))
    created.1.1 RuntimeClientState.Closed.
Proof.
  intros created id close.
  destruct (createClient_lifecycle example_host example_adapter
              "positron.environment" "{}" 4076792474 0)
    as (Hopening & Hreg & _ & Hthen & _ & Hclose & _).
  split; [exact Hopening|].
  split; [exact (Hthen _ _ Hopening)|].
  exact (proj2 (Hclose created.2 _ close eq_refl eq_refl Hopening Hreg)).
Defined.

Lemma observed_clock_never_decreases_witness :
  let a := run example_host example_adapter
             [call_handleRuntimeMessage
                (example_message LanguageRuntimeMessageType.Stream 5 "")] in
  _eventClock a = 5 ∧
  _eventClock a ≤ _eventClock (step example_host a (call_emitState 2 RuntimeState.Busy)) ∧
  _eventClock a ≤ _eventClock (step example_host a (call_emitState 9 RuntimeState.Busy)).
Proof.
  intros a.
  destruct (observed_clock_never_decreases example_host 7
              {| languageId := "python"; runtimeName := "Python 3" |}
              [call_handleRuntimeMessage
                 (example_message LanguageRuntimeMessageType.Stream 5 "")])
    as (Hstep & _).
  split; [reflexivity|]. split; apply Hstep.
Defined.

Lemma comm_closed_twice_witness :
  let open := example_message LanguageRuntimeMessageType.CommOpen 1 "comm-1" in
  let closed := example_message LanguageRuntimeMessageType.CommClosed 2 "comm-1" in
  let a := handleRuntimeMessage example_host open example_adapter in
  let a1 := processMessage example_host closed a in
  let a2 := processMessage example_host closed a1 in
  client_in_state a 0 RuntimeClientState.Connected ∧
  client_in_state a1 0 RuntimeClientState.Closed ∧
  client_in_state a2 0 RuntimeClientState.Closed ∧
  (∀ call, Proxy call ∈ trace a2 → Proxy call ∈ trace a).
Proof.
  intros open closed a a1 a2.
  assert (Hm : msg_type closed = LanguageRuntimeMessageType.CommClosed) by reflexivity.
  assert (Hg : JsMap.get (comm_id closed) (_clients a) = Some 0%nat) by reflexivity.
  assert (Hc : clientObjects a !! 0%nat
               = Some (with_state RuntimeClientState.Connected
                         (new_ExtHostRuntimeClientInstance "comm-1"
                            "positron.environment" 7))) by reflexivity.
  destruct (comm_closed_twice example_host a closed 0 _ Hm Hg Hc)
    as (L1 & L2 & _ & _ & Hp & _).
  split; [eexists; split; [exact Hc | done]|].
  split; [eexists; split; [exact L1 | done]|].
  split; [eexists; split; [exact L2 | done]|].
  exact Hp.
Defined.

Lemma unknown_handle_throws_witness :
  emitLanguageRuntimeMessage example_host 5
    (example_message LanguageRuntimeMessageType.Stream 1 "") {| _runtimes := [] |}
    = Throw (Error "Unknown language runtime handle: 5") ∧
  emitLanguageRuntimeState example_host 5 1 RuntimeState.Ready {| _runtimes := [] |}
    = Throw (Error "Unknown language runtime handle: 5").
Proof.
  assert (Hnone : JsMap.get 5 (_runtimes {| _runtimes := [] |}) = None) by reflexivity.
  destruct (unknown_handle_throws example_host {| _runtimes := [] |} 5 Hnone)
    as (Hm & Hs & _).
  split; [apply Hm | apply Hs].
Defined.

(** ** Further properties of the event queue *)

Lemma same_queue_step host a c :
  match c with
  | call_handleRuntimeMessage _ | call_emitState _ _ | call_eventQueueTimeout => True
  | _ => same_queue a (step host a c)
  end.
Proof.
  destruct c; cbn [step]; try done;
    first [ apply same_queue_createClient
          | apply same_queue_createClient_then
          | apply same_queue_createClient_catch
          | apply same_queue_listClients_then
          | apply same_queue_onClient
          | idtac ].
  all: unfold interrupt, restart, shutdown.
  all: eapply same_queue_trans; [apply same_queue_fireState | apply same_queue_emit].
Qed.

Lemma messages_of_app l1 l2 : messages_of (l1 ++ l2) = messages_of l1 ++ messages_of l2.
Proof. unfold messages_of. apply filter_app. Qed.

Lemma messages_of_Permutation l1 l2 : l1 ≡ₚ l2 → messages_of l1 ≡ₚ messages_of l2.
Proof. unfold messages_of. by intros ->. Qed.

Section Queue.
Context (host : HostDeclarations).

(** *** The timer and the queue *)

Lemma addToEventQueue_timer_guards e a :
  timer_guards_queue a → timer_guards_queue (addToEventQueue host e a).
Proof.
  intros Hinv. unfold addToEventQueue. cbn zeta. case_decide.
  - destruct e as [c m|c s]; [|done].
    match goal with |- context [processMessage host m ?b] =>
      destruct (same_queue_processMessage host m b) as (_ & Hq & Ht & _) end.
    unfold timer_guards_queue. by rewrite Hq, Ht.
  - cbn [_eventClock with_eventQueue]. case_decide.
    + match goal with |- context [processEventQueue host ?b] =>
        destruct (processEventQueue_facts host b) as (_ & Hq & Ht & _) end.
      unfold timer_guards_queue. by rewrite Hq, Ht.
    + cbn [_eventQueueTimer log emit with_trace with_eventQueue].
      unfold timer_guards_queue.
      destruct (_eventQueueTimer a); simpl; (split; [|done]);
        intros Hnil; by apply app_nil in Hnil as [_ ?].
Qed.

Lemma eventQueueTimeout_timer_guards a :
  timer_guards_queue a → timer_guards_queue (eventQueueTimeout host a).
Proof.
  intros Hinv. unfold eventQueueTimeout.
  destruct (_eventQueueTimer a); [|done].
  match goal with |- context [processEventQueue host ?b] =>
    destruct (processEventQueue_facts host b) as (_ & Hq & Ht & _) end.
  unfold timer_guards_queue. by rewrite Hq, Ht.
Qed.

Lemma step_timer_guards a c :
  timer_guards_queue a → timer_guards_queue (step host a c).
Proof.
  intros Hinv. pose proof (same_queue_step host a c) as Hsame.
  destruct c;
    try (destruct Hsame as (_ & Hq & Ht & _); unfold timer_guards_queue;
         by rewrite Hq, Ht).
  - by apply addToEventQueue_timer_guards.
  - by apply addToEventQueue_timer_guards.
  - by apply eventQueueTimeout_timer_guards.
Qed.

Lemma run_timer_guards a calls :
  timer_guards_queue a → timer_guards_queue (run host a calls).
Proof.
  intros Hinv. unfold run. apply (foldl_invariant timer_guards_queue); [|done].
  intros b c Hb. by apply step_timer_guards.
Qed.

Lemma eventQueueTimeout_empties a :
  timer_guards_queue a →
  _eventQueue (eventQueueTimeout host a) = [] ∧
  _eventQueueTimer (eventQueueTimeout host a) = None.
Proof.
  intros Hinv. unfold eventQueueTimeout. destruct (_eventQueueTimer a) eqn:Ht.
  - match goal with |- context [processEventQueue host ?b] =>
      by destruct (processEventQueue_facts host b) as (_ & -> & -> & _) end.
  - split; [by apply Hinv | done].
Qed.

(** X1: whatever calls an adapter has received, its queue is empty exactly
    when no recovery timer is pending: a buffered event always has a timer
    that will flush it, and a timer never outlives the events it was armed
    for. *)
Theorem buffered_events_have_a_timer handle metadata calls :
  let a := run host (new_ExtHostLanguageRuntimeAdapter handle metadata) calls in
  (_eventQueue a = [] ↔ _eventQueueTimer a = None) ∧
  _eventQueue (eventQueueTimeout host a) = [] ∧
  _eventQueueTimer (eventQueueTimeout host a) = None.
Proof.
  intros a.
  assert (Hinv : timer_guards_queue a) by by apply run_timer_guards.
  split; [exact Hinv|]. by apply eventQueueTimeout_empties.
Qed.

(** *** Nothing is lost, nothing is delivered twice *)

Lemma addToEventQueue_accounting e a :
  let a' := addToEventQueue host e a in
  delivered a' ++ _eventQueue a'
    ≡ₚ (delivered a ++ _eventQueue a) ++
       (if decide (clock e < _eventClock a)
        then (if is_message e then [e] else []) else [e]).
Proof.
  unfold addToEventQueue. cbn zeta. case_decide.
  - destruct e as [c m|c s]; simpl; [|by rewrite app_nil_r].
    match goal with |- context [processMessage host m ?b] =>
      destruct (same_queue_processMessage host m b) as (_ & Hq & _ & _ & Hd) end.
    rewrite Hq, Hd. simpl.
    rewrite <- !app_assoc. apply Permutation_app_head, Permutation_app_comm.
  - cbn [_eventClock with_eventQueue]. case_decide.
    + match goal with |- context [processEventQueue host ?b] =>
        destruct (processEventQueue_facts host b) as (_ & Hq & _ & _ & Hd) end.
      rewrite Hq, Hd. simpl. rewrite app_nil_r, Array_sort_Permutation.
      by rewrite app_assoc.
    + cbn [_eventQueueTimer log emit with_trace with_eventQueue].
      destruct (_eventQueueTimer a); simpl; by rewrite app_assoc.
Qed.

Lemma eventQueueTimeout_accounting a :
  delivered (eventQueueTimeout host a) ++ _eventQueue (eventQueueTimeout host a)
    ≡ₚ delivered a ++ _eventQueue a.
Proof.
  unfold eventQueueTimeout. destruct (_eventQueueTimer a); [|done].
  match goal with |- context [processEventQueue host ?b] =>
    destruct (processEventQueue_facts host b) as (_ & Hq & _ & _ & Hd) end.
  rewrite Hq, Hd. simpl. by rewrite app_nil_r, Array_sort_Permutation.
Qed.

Lemma step_accounting a c :
  messages_of (delivered (step host a c) ++ _eventQueue (step host a c))
    ≡ₚ messages_of (delivered a ++ _eventQueue a) ++ submitted_messages [c].
Proof.
  pose proof (same_queue_step host a c) as Hsame.
  destruct c; cbn [submitted_messages];
    try (destruct Hsame as (_ & Hq & _ & _ & Hd); rewrite Hq, Hd;
         by rewrite app_nil_r).
  - cbn [step]. unfold handleRuntimeMessage.
    rewrite (messages_of_Permutation _ _ (addToEventQueue_accounting _ a)).
    rewrite messages_of_app. apply Permutation_app_head.
    by case_decide.
  - cbn [step]. unfold emitState.
    rewrite (messages_of_Permutation _ _ (addToEventQueue_accounting _ a)).
    rewrite messages_of_app, app_nil_r. simpl.
    match goal with
    | |- context [messages_of (if ?d then [] else [?x])] =>
        replace (messages_of (if d then [] else [x]))
          with (@nil QueuedRuntimeEvent) by by destruct d
    end.
    by rewrite app_nil_r.
  - cbn [step].
    rewrite (messages_of_Permutation _ _ (eventQueueTimeout_accounting a)).
    by rewrite app_nil_r.
Qed.

Lemma run_accounting calls : ∀ a,
  messages_of (delivered (run host a calls) ++ _eventQueue (run host a calls))
    ≡ₚ messages_of (delivered a ++ _eventQueue a) ++ submitted_messages calls.
Proof.
  induction calls as [|c calls IH]; intros a.
  - simpl. by rewrite app_nil_r.
  - change (run host a (c :: calls)) with (run host (step host a c) calls).
    rewrite IH, step_accounting, <- app_assoc.
    apply Permutation_app_head.
    destruct c; simpl; done.
Qed.

(** X2: no message is lost or duplicated. Whatever calls an adapter has
    received, the message events delivered so far together with those still
    in the queue are, up to order, exactly the message events submitted;
    once the recovery timer has fired, all of them have been delivered. *)
Theorem messages_delivered_exactly_once handle metadata calls :
  let a := run host (new_ExtHostLanguageRuntimeAdapter handle metadata) calls in
  messages_of (delivered a) ++ messages_of (_eventQueue a)
    ≡ₚ submitted_messages calls ∧
  messages_of (delivered (eventQueueTimeout host a)) ≡ₚ submitted_messages calls.
Proof.
  intros a.
  pose proof (run_accounting calls
                (new_ExtHostLanguageRuntimeAdapter handle metadata)) as Hrun.
  fold a in Hrun. simpl in Hrun. rewrite messages_of_app in Hrun.
  split; [exact Hrun|].
  destruct (eventQueueTimeout_empties a) as [Hq _]; [by apply run_timer_guards|].
  pose proof (eventQueueTimeout_accounting a) as Hacc.
  rewrite Hq, app_nil_r in Hacc.
  rewrite (messages_of_Permutation _ _ Hacc), messages_of_app. exact Hrun.
Qed.

End Queue.

(** ** The runtime state *)

Lemma currentState_onClient client f a :
  _currentState (onClient client f a) = _currentState a.
Proof.
  unfold onClient. destruct (clientObjects a !! client) as [c|]; [|done].
  by destruct (f c).
Qed.

Lemma currentState_fireState state a :
  _currentState (fireState state a) = state.
Proof.
  unfold fireState, stateListener. cbn [_currentState emit with_trace].
  case_decide; [|done]. cbn [_currentState with_clients].
  apply (foldl_invariant (λ b, _currentState b = state)); [|done].
  intros b r <-. by destruct (closeIfConnected_frame b r).
Qed.

Section RuntimeStateFacts.
Context (host : HostDeclarations).

Lemma currentState_processMessage message a :
  _currentState (processMessage host message a) = _currentState a.
Proof.
  unfold processMessage. destruct (msg_type message); try done.
  - unfold openClientInstance, newClient. case_match; [done|].
    cbn [_currentState emit with_trace]. by rewrite currentState_onClient.
  - unfold emitDidReceiveClientMessage. case_match; [|done].
    apply currentState_onClient.
  - unfold emitClientState. case_match; [|done].
    apply currentState_onClient.
Qed.

Lemma currentState_deliver a e :
  _currentState (deliver host a e)
    = default (_currentState a) (last (states_of [e])).
Proof.
  unfold deliver. destruct e as [c m|c s]; simpl.
  - by rewrite currentState_processMessage.
  - apply currentState_fireState.
Qed.

Lemma states_of_app l1 l2 : states_of (l1 ++ l2) = states_of l1 ++ states_of l2.
Proof.
  induction l1 as [|[c m|c s] l1 IH]; simpl; [done | done | by rewrite IH].
Qed.

Lemma currentState_foldl_deliver l : ∀ a,
  _currentState (foldl (deliver host) a l)
    = default (_currentState a) (last (states_of l)).
Proof.
  induction l as [|e l IH]; intros a; [done|].
  cbn [foldl]. rewrite IH, currentState_deliver.
  change (e :: l) with ([e] ++ l). rewrite states_of_app, last_app.
  by destruct (last (states_of l)).
Qed.

Lemma currentState_processEventQueue a :
  _currentState (processEventQueue host a)
    = default (_currentState a) (last (states_of (Array_sort (_eventQueue a)))).
Proof.
  unfold processEventQueue. cbn zeta. cbn [_currentState with_eventQueue].
  rewrite currentState_foldl_deliver.
  destruct (_eventQueueTimer a);
    cbn [_eventQueue _currentState with_eventQueueTimer emit with_trace];
    pose proof (flushed_queue a) as Hq; case_decide;
    cbn [_eventQueue _currentState log emit with_trace with_eventQueue];
    by rewrite <- ?Hq.
Qed.

Lemma currentState_addToEventQueue_deferred e a :
  _eventClock a ≠ 0 → deferred a e →
  _currentState (addToEventQueue host e a) = _currentState a.
Proof.
  intros Hc [Hge Hne]. unfold addToEventQueue. cbn zeta.
  rewrite decide_False by lia.
  cbn [_eventClock with_eventQueue].
  rewrite decide_False by (intros [?|?]; done).
  cbn [_eventQueueTimer log emit with_trace with_eventQueue].
  by destruct (_eventQueueTimer a).
Qed.

Lemma currentState_submitAll_deferred evs : ∀ a,
  _eventClock a ≠ 0 → Forall (deferred a) evs →
  _currentState (submitAll host a evs) = _currentState a.
Proof.
  induction evs as [|e evs IH]; intros a Hc Hall; [done|].
  apply Forall_cons in Hall as [He Hall].
  destruct (addToEventQueue_deferred host e a Hc He) as (C1 & _).
  change (submitAll host a (e :: evs))
    with (submitAll host (addToEventQueue host e a) evs).
  rewrite IH.
  - by apply currentState_addToEventQueue_deferred.
  - by rewrite C1.
  - eapply Forall_impl; [exact Hall|]. unfold deferred. by rewrite C1.
Qed.

(** X3: when buffered state changes are flushed together, the last one in
    clock order wins. A flush leaves the runtime state at the state of the
    last state-change event of the sorted queue, or unchanged if the queue
    holds none. So for events buffered by an adapter with an empty queue
    that has observed an event: buffering them does not change the runtime
    state, and the flush by the gap-closing event or by the timer sets it
    to the state of the last state change in clock order. *)
Theorem latest_state_change_wins a evs e :
  _eventClock a ≠ 0 → _eventQueue a = [] → Forall (deferred a) evs →
  clock e = _eventClock a + 1 →
  getRuntimeState (processEventQueue host a)
    = default (getRuntimeState a) (last (states_of (Array_sort (_eventQueue a)))) ∧
  getRuntimeState (submitAll host a evs) = getRuntimeState a ∧
  getRuntimeState (addToEventQueue host e (submitAll host a evs))
    = default (getRuntimeState a) (last (states_of (Array_sort (evs ++ [e])))) ∧
  getRuntimeState (eventQueueTimeout host (submitAll host a evs))
    = default (getRuntimeState a) (last (states_of (Array_sort evs))).
Proof.
  intros Hc Hq Hall He. unfold getRuntimeState.
  destruct (submitAll_deferred host evs a Hc Hall) as (C & Q & _ & T).
  pose proof (currentState_submitAll_deferred evs a Hc Hall) as S.
  set (b := submitAll host a evs) in *.
  split; [apply currentState_processEventQueue|]. split; [exact S|]. split.
  - unfold addToEventQueue. cbn zeta.
    rewrite decide_False by lia.
    cbn [_eventClock with_eventQueue].
    rewrite decide_True by (left; lia).
    rewrite currentState_processEventQueue. simpl. by rewrite S, Q, Hq.
  - unfold eventQueueTimeout. destruct (_eventQueueTimer b) eqn:Ht.
    + rewrite currentState_processEventQueue. simpl. by rewrite S, Q, Hq.
    + destruct evs as [|e' evs]; [by rewrite S|].
      destruct T as [t Ht']; [done|]. unfold b in Ht. congruence.
Qed.

(** *** Events that arrive in order *)

Lemma addToEventQueue_next e a :
  _eventQueue a = [] → clock e = _eventClock a + 1 →
  let a' := addToEventQueue host e a in
  delivered a' = delivered a ++ [e] ∧ _eventQueue a' = [] ∧
  _eventQueueTimer a' = None ∧ _eventClock a' = _eventClock a + 1 ∧
  timers a' = timers a.
Proof.
  intros Hq He. unfold addToEventQueue. cbn zeta.
  rewrite decide_False by lia.
  cbn [_eventClock with_eventQueue].
  rewrite decide_True by (left; lia).
  match goal with |- context [processEventQueue host ?b] =>
    destruct (processEventQueue_facts host b) as (-> & -> & -> & -> & ->) end.
  simpl. rewrite Hq. simpl. by rewrite He.
Qed.

(** X4: the common case. Events that arrive with the clocks observed+1,
    observed+2, ... at an adapter with an empty queue are each delivered on
    arrival, in the order of arrival: nothing is buffered, no timer is
    armed, and the observed clock ends at the clock of the last event. *)
Theorem in_order_events_delivered_on_arrival evs : ∀ a,
  _eventQueue a = [] → in_sequence (_eventClock a) evs →
  let a' := submitAll host a evs in
  delivered a' = delivered a ++ evs ∧ _eventQueue a' = [] ∧
  _eventClock a' = _eventClock a + Z.of_nat (length evs) ∧ timers a' = timers a ∧
  (evs ≠ [] → _eventQueueTimer a' = None).
Proof.
  induction evs as [|e evs IH]; intros a Hq Hseq.
  - simpl. rewrite app_nil_r. repeat split; try done. lia.
  - destruct Hseq as [He Hseq].
    destruct (addToEventQueue_next e a Hq He) as (D1 & Q1 & T1 & C1 & N1).
    change (submitAll host a (e :: evs))
      with (submitAll host (addToEventQueue host e a) evs).
    destruct (IH (addToEventQueue host e a)) as (D2 & Q2 & C2 & N2 & T2).
    { exact Q1. }
    { by rewrite C1. }
    cbn zeta. rewrite D2, Q2, C2, N2, D1, C1, N1, <- app_assoc.
    repeat split; try done.
    + rewrite length_cons. lia.
    + intros _. destruct evs as [|e' evs]; [exact T1 | by apply T2].
Qed.

End RuntimeStateFacts.

(** ** The map of clients *)

Section JsMapMore.
Context {K V : Type} `{EqDecision K}.
Implicit Types (m : list (K * V)).

Lemma delete_absent k m : JsMap.get k m = None → JsMap.delete k m = m.
Proof.
  induction m as [|[k' v'] m IH]; simpl; [done|].
  case_decide; [done|]. intros Hget. by rewrite IH.
Qed.

Lemma delete_set_absent k v m :
  JsMap.get k m = None → JsMap.delete k (JsMap.set k v m) = m.
Proof.
  induction m as [|[k' v'] m IH]; simpl.
  - intros _. by rewrite decide_True.
  - case_decide; [done|]. intros Hget. simpl.
    rewrite decide_False by done. by rewrite IH.
Qed.

Lemma has_get k m : JsMap.has k m = bool_decide (is_Some (JsMap.get k m)).
Proof.
  unfold JsMap.has. destruct (JsMap.get k m).
  - by rewrite bool_decide_true.
  - rewrite bool_decide_false; [done|]. by intros [? ?].
Qed.

End JsMapMore.

Lemma onClient_new_object objs c0 f a :
  clientObjects a = objs ++ [c0] →
  clientObjects (onClient (length objs) f a) = objs ++ [(f c0).1] ∧
  trace (onClient (length objs) f a) = trace a ++ (f c0).2 ∧
  _clients (onClient (length objs) f a) = _clients a.
Proof.
  intros Hobjs.
  assert (Hc : clientObjects a !! length objs = Some c0).
  { rewrite Hobjs, lookup_app_r by done. by rewrite Nat.sub_diag. }
  unfold onClient. rewrite Hc. destruct (f c0) as [c' es]. simpl.
  split; [|done]. rewrite Hobjs, insert_app_r_alt by done.
  by rewrite Nat.sub_diag.
Qed.

Lemma metadata_onClient client f a : metadata (onClient client f a) = metadata a.
Proof.
  unfold onClient. destruct (clientObjects a !! client) as [c|]; [|done].
  by destruct (f c).
Qed.

Section Registry2.
Context (host : HostDeclarations).

(** X5: a Comm-open message. With a target name that is not a known client
    type no instance is created and nothing is registered: the only effect
    is the request to remove the client on the back end. With a known type
    one new instance is created, already Connected, and registered under
    the comm id; the instances that existed and the other map entries are
    left as they were (an instance that was registered under the same id
    stays in the store but is no longer reachable through the map). *)
Theorem comm_open_registers_known_types_only a m :
  msg_type m = LanguageRuntimeMessageType.CommOpen →
  let a' := processMessage host m a in
  let client := length (clientObjects a) in
  (target_name m ∉ RuntimeClientType_values host →
   _clients a' = _clients a ∧ clientObjects a' = clientObjects a ∧
   trace a' = trace a ++ [Proxy (proxy_removeClient (handle a) (comm_id m))]) ∧
  (target_name m ∈ RuntimeClientType_values host →
   JsMap.get (comm_id m) (_clients a') = Some client ∧
   (∀ k, k ≠ comm_id m → JsMap.get k (_clients a') = JsMap.get k (_clients a)) ∧
   clientObjects a'
     = clientObjects a ++
       [with_state RuntimeClientState.Connected
          (new_ExtHostRuntimeClientInstance (comm_id m) (target_name m) (handle a))] ∧
   trace a'
     = trace a ++
       [Fire (onDidChangeClientState (comm_id m) RuntimeClientState.Connected);
        Fire (onDidCreateClientInstance client m)]).
Proof.
  intros Hm a' client. unfold a', processMessage. rewrite Hm.
  unfold openClientInstance, newClient. split; intros Hin.
  - by rewrite bool_decide_false by done.
  - rewrite bool_decide_true by done. cbn [negb].
    set (c0 := new_ExtHostRuntimeClientInstance _ _ _).
    set (b := with_clients _ _).
    destruct (onClient_new_object (clientObjects a) c0
                (setClientState RuntimeClientState.Connected) b eq_refl)
      as (Hobjs & Htrace & Hclients).
    cbn [_clients clientObjects trace emit with_trace].
    rewrite Hobjs, Htrace, Hclients. unfold b. simpl.
    split; [apply get_set_eq|]. split; [|by rewrite <- app_assoc].
    intros k Hk. by apply get_set_ne.
Qed.

(** X6: a client whose creation fails leaves no trace in the map. If the
    generated id was not registered before [createClient], then after the
    creation request has been rejected the map of clients is exactly what it
    was before the call; the instance handed out is Closed and the failure
    is logged as an error. *)
Theorem failed_creation_restores_clients a type params random clientCounter err :
  let id := (generateClientId (languageId (metadata a)) type random clientCounter).1 in
  let client := (createClient type params random clientCounter a).1.1 in
  let a1 := (createClient type params random clientCounter a).2 in
  let a2 := createClient_catch client id err a1 in
  JsMap.get id (_clients a) = None →
  _clients a2 = _clients a ∧
  client_in_state a2 client RuntimeClientState.Closed ∧
  Log error_level
    ("Failed to create client '" +:+ id +:+ "' " +:+ "in runtime '" +:+
     runtimeName (metadata a) +:+ "': " +:+ err) ∈ trace a2.
Proof.
  intros id client a1 a2 Hfresh.
  destruct (createClient_facts a type params random clientCounter)
    as (Hclient & L & _ & _).
  fold id client a1 in Hclient, L.
  assert (Hclients : _clients a1 = JsMap.set id client (_clients a)).
  { unfold a1, client, id, createClient, newClient.
    destruct (generateClientId _ _ _ _) as [id' n]. cbn [fst snd].
    cbn [_clients emit with_trace]. by rewrite onClient_clients. }
  assert (Hmeta : metadata a1 = metadata a).
  { unfold a1, createClient, newClient.
    destruct (generateClientId _ _ _ _) as [id' n]. cbn [fst snd].
    cbn [metadata emit with_trace]. by rewrite metadata_onClient. }
  clearbody a1 client id.
  split; [|split].
  - unfold a2, createClient_catch. cbn [_clients with_clients].
    rewrite onClient_clients. cbn [_clients log emit with_trace].
    rewrite Hclients. by apply delete_set_absent.
  - apply (createClient_catch_state client id err a1 RuntimeClientState.Opening).
    eexists. split; [exact L | done].
  - unfold a2, createClient_catch. cbn [trace with_clients].
    match goal with |- context [onClient client ?f ?b] =>
      destruct (trace_extends_onClient client f b) as [es ->] end.
    cbn [trace log emit with_trace]. rewrite Hmeta, !elem_of_app. left. right.
    by apply list_elem_of_singleton.
Qed.

End Registry2.

(** ** Reconciling with the list of the back end *)

Section ListClients.
Context (host : HostDeclarations).

Lemma listClients_then_shift clients : ∀ ins a,
  foldl (λ '(instances, a) '(key, clientType),
           match JsMap.get key (_clients a) with
           | Some instance => (instances ++ [instance], a)
           | None =>
               if bool_decide (clientType ∈ RuntimeClientType_values host) then
                 let '(client, a) := newClient key clientType a in
                 let a := onClient client (setClientState RuntimeClientState.Connected) a in
                 let a := with_clients (JsMap.set key client (_clients a)) a in
                 (instances ++ [client], a)
               else
                 (instances,
                  log warn ("Ignoring unknown client type '" +:+ clientType +:+
                            "' for client '" +:+ key +:+ "'") a)
           end) (ins, a) clients
  = (ins ++ (listClients_then host clients a).1, (listClients_then host clients a).2).
Proof.
  unfold listClients_then.
  induction clients as [|[k t] l IH]; intros ins a.
  - simpl. by rewrite app_nil_r.
  - cbn [foldl]. cbn beta iota.
    destruct (JsMap.get k (_clients a)) as [r|].
    + rewrite (IH (ins ++ [r])), (IH ([] ++ [r])). cbn [fst snd]. by rewrite <- app_assoc.
    + destruct (bool_decide (t ∈ RuntimeClientType_values host)).
      * unfold newClient. cbn beta iota zeta.
        rewrite (IH (ins ++ _)), (IH ([] ++ _)). cbn [fst snd]. by rewrite <- app_assoc.
      * apply IH.
Qed.
(** What one key of the list does. *)
Lemma listClients_then_cons key clientType clients a :
  listClients_then host ((key, clientType) :: clients) a
  = let step := listClients_then host [(key, clientType)] a in
    let rest := listClients_then host clients step.2 in
    (step.1 ++ rest.1, rest.2).
Proof.
  cbn zeta. unfold listClients_then at 1. cbn [foldl].
  match goal with
  | |- foldl ?F ?x clients = _ =>
      change x with (listClients_then host [(key, clientType)] a)
  end.
  destruct (listClients_then host [(key, clientType)] a) as [ins1 a1].
  apply listClients_then_shift.
Qed.

Lemma listClients_then_one key clientType a :
  let instances := (listClients_then host [(key, clientType)] a).1 in
  let a' := (listClients_then host [(key, clientType)] a).2 in
  match JsMap.get key (_clients a) with
  | Some r => instances = [r] ∧ a' = a
  | None =>
      if decide (clientType ∈ RuntimeClientType_values host) then
        instances = [length (clientObjects a)] ∧
        _clients a' = JsMap.set key (length (clientObjects a)) (_clients a) ∧
        clientObjects a'
          = clientObjects a ++
            [with_state RuntimeClientState.Connected
               (new_ExtHostRuntimeClientInstance key clientType (handle a))]
      else
        instances = [] ∧ _clients a' = _clients a ∧
        clientObjects a' = clientObjects a
  end.
Proof.
  unfold listClients_then. cbn [foldl].
  destruct (JsMap.get key (_clients a)) as [r|]; [done|].
  case_decide.
  - rewrite bool_decide_true by done. unfold newClient. cbn [fst snd].
    set (c0 := new_ExtHostRuntimeClientInstance _ _ _).
    destruct (onClient_new_object (clientObjects a) c0
                (setClientState RuntimeClientState.Connected)
                (with_clientObjects (clientObjects a ++ [c0]) a) eq_refl)
      as (Hobjs & _ & Hclients).
    cbn [_clients clientObjects with_clients].
    by rewrite Hobjs, Hclients.
  - by rewrite bool_decide_false by done.
Qed.

(** X7: reconciling the local map with the list the back end returns. Every
    client that was registered keeps its entry and every instance that
    existed is left as it was; every listed id whose type is a known client
    type is registered afterwards; every reference returned is registered
    under a listed id; and every instance the call creates is Connected and
    carries a listed id with its known type. *)
Theorem listClients_reconciles clients : ∀ a,
  let instances := (listClients_then host clients a).1 in
  let a' := (listClients_then host clients a).2 in
  (∀ k r, JsMap.get k (_clients a) = Some r → JsMap.get k (_clients a') = Some r) ∧
  (∀ r c, clientObjects a !! r = Some c → clientObjects a' !! r = Some c) ∧
  (∀ k t, (k, t) ∈ clients → t ∈ RuntimeClientType_values host →
          is_Some (JsMap.get k (_clients a'))) ∧
  Forall (λ r, ∃ k t, (k, t) ∈ clients ∧ JsMap.get k (_clients a') = Some r)
    instances ∧
  (∀ r c, clientObjects a !! r = None → clientObjects a' !! r = Some c →
          _state c = RuntimeClientState.Connected ∧
          (_id c, _type c) ∈ clients ∧
          _type c ∈ RuntimeClientType_values host).
Proof.
  induction clients as [|[key t] clients IH]; intros a.
  - unfold listClients_then. cbn [foldl fst snd]. cbn zeta.
    split; [done|]. split; [done|].
    split; [intros k t Hin; by apply elem_of_nil in Hin|].
    split; [constructor|]. intros r c Hnone Hsome. congruence.
  - rewrite listClients_then_cons. cbn zeta. cbn [fst snd].
    pose proof (listClients_then_one key t a) as Hone. cbn zeta in Hone.
    set (ins1 := (listClients_then host [(key, t)] a).1) in *.
    set (a1 := (listClients_then host [(key, t)] a).2) in *.
    destruct (IH a1) as (K2 & O2 & V2 & I2 & N2).
    set (ins2 := (listClients_then host clients a1).1) in *.
    set (a2 := (listClients_then host clients a1).2) in *.
    clearbody ins1 a1 ins2 a2.
    assert (K1 : ∀ k r, JsMap.get k (_clients a) = Some r →
                        JsMap.get k (_clients a1) = Some r).
    { intros k r Hk. destruct (JsMap.get key (_clients a)) as [r0|] eqn:Hkey.
      - destruct Hone as [_ ->]. done.
      - case_decide.
        + destruct Hone as (_ & -> & _). rewrite get_set_ne; [done|].
          intros ->. congruence.
        + destruct Hone as (_ & -> & _). done. }
    assert (O1 : ∀ r c, clientObjects a !! r = Some c →
                        clientObjects a1 !! r = Some c).
    { intros r c Hr. destruct (JsMap.get key (_clients a)) as [r0|] eqn:Hkey.
      - destruct Hone as [_ ->]. done.
      - case_decide.
        + destruct Hone as (_ & _ & ->). by apply lookup_app_l_Some.
        + destruct Hone as (_ & _ & ->). done. }
    split; [intros k r Hk; by apply K2, K1|].
    split; [intros r c Hr; by apply O2, O1|].
    split; [|split].
    + intros k t' Hin Hvalid. apply elem_of_cons in Hin as [[= -> ->]|Hin];
        [|by eapply V2].
      assert (is_Some (JsMap.get key (_clients a1))) as [r Hr].
      { destruct (JsMap.get key (_clients a)) as [r0|] eqn:Hkey.
        - destruct Hone as [_ ->]. by rewrite Hkey.
        - rewrite decide_True in Hone by done.
          destruct Hone as (_ & -> & _). rewrite get_set_eq. by eexists. }
      exists r. by apply K2.
    + apply Forall_app. split.
      * assert (Hins1 : Forall (λ r, JsMap.get key (_clients a1) = Some r) ins1).
        { destruct (JsMap.get key (_clients a)) as [r0|] eqn:Hkey.
          - destruct Hone as [-> ->]. by repeat constructor.
          - case_decide.
            + destruct Hone as (-> & -> & _). repeat constructor.
              apply get_set_eq.
            + destruct Hone as (-> & _). constructor. }
        eapply Forall_impl; [exact Hins1|]. intros r Hr. cbn beta in Hr.
        exists key, t. split; [left | by apply K2].
      * eapply Forall_impl; [exact I2|]. intros r (k & t' & Hin & Hr).
        exists k, t'. split; [by right | done].
    + intros r c Hnone Hsome.
      destruct (clientObjects a1 !! r) as [c1|] eqn:Hr1.
      * rewrite (O2 r c1 Hr1) in Hsome. injection Hsome as <-.
        destruct (JsMap.get key (_clients a)) as [r0|] eqn:Hkey.
        { destruct Hone as [_ ->]. congruence. }
        case_decide as Hvalid.
        -- destruct Hone as (_ & _ & Hobjs). rewrite Hobjs in Hr1.
           apply lookup_app_Some in Hr1 as [Hr1|[_ Hr1]]; [congruence|].
           destruct (r - length (clientObjects a))%nat; [|done].
           injection Hr1 as <-. simpl. split; [done|]. split; [left | done].
        -- destruct Hone as (_ & _ & Hobjs). congruence.
      * destruct (N2 r c Hr1 Hsome) as (Hs & Hin & Hv).
        split; [done|]. split; [by right | done].
Qed.

End ListClients.

(** ** Generated client ids *)

Lemma dash_free_pretty_N_go x : ∀ s, dash_free s → dash_free (pretty_N_go x s).
Proof.
  induction (N.lt_wf_0 x) as [x _ IH]; intros s Hs.
  assert (x = 0 ∨ 0 < x)%N as [->|Hpos] by lia.
  - by rewrite pretty_N_go_0.
  - rewrite pretty_N_go_step by done. apply IH.
    { by apply N.div_lt. }
    split; [|done]. unfold pretty_N_char. by repeat case_match.
Qed.

Lemma dash_free_pretty_N (n : N) : dash_free (pretty n).
Proof.
  unfold pretty, pretty_N. case_decide.
  - split; [done|]. done.
  - by apply dash_free_pretty_N_go.
Qed.

Lemma dash_split s1 : ∀ s2 t1 t2,
  dash_free s1 → dash_free s2 →
  s1 +:+ "-" +:+ t1 = s2 +:+ "-" +:+ t2 → s1 = s2.
Proof.
  induction s1 as [|c s1 IH]; intros [|c' s2] t1 t2 H1 H2 Heq; simpl in *.
  - done.
  - injection Heq as Hc _. destruct H2 as [H2 _]. by destruct H2.
  - injection Heq as Hc _. destruct H1 as [H1 _]. by destruct H1.
  - injection Heq as -> Heq. f_equal.
    destruct H1 as [_ H1], H2 as [_ H2]. by eapply IH.
Qed.

Lemma generateClientId_counter_inj languageId clientType random1 random2
  (counter1 counter2 : N) :
  (generateClientId languageId clientType random1 counter1).1
    = (generateClientId languageId clientType random2 counter2).1 →
  counter1 = counter2.
Proof.
  unfold generateClientId. cbn [fst]. intros Heq.
  apply (inj (String.append _)) in Heq.
  apply (inj (String.append "-")) in Heq.
  apply (inj (String.append _)) in Heq.
  apply (inj (String.append "-")) in Heq.
  apply dash_split in Heq; [|apply dash_free_pretty_N..].
  by apply (inj pretty) in Heq.
Qed.

(** X8: the counter alone keeps generated ids apart. Two ids generated for
    the same client type and language with different values of the counter
    are different, whatever the random parts; and each call returns the
    counter incremented by one, so successive calls never share a value. *)
Theorem generated_ids_differ_by_counter languageId clientType random1 random2
  (counter1 counter2 : N) :
  counter1 ≠ counter2 →
  (generateClientId languageId clientType random1 counter1).1
    ≠ (generateClientId languageId clientType random2 counter2).1 ∧
  (generateClientId languageId clientType random1 counter1).2 = (counter1 + 1)%N.
Proof.
  intros Hne. split; [|done].
  intros Heq. by apply generateClientId_counter_inj in Heq.
Qed.

(** ** Created clients *)

Lemma createClient_frame a type params random clientCounter :
  let id := (generateClientId (languageId (metadata a)) type random clientCounter).1 in
  let client := (createClient type params random clientCounter a).1.1 in
  let a1 := (createClient type params random clientCounter a).2 in
  (createClient type params random clientCounter a).1.2 = (clientCounter + 1)%N ∧
  _clients a1 = JsMap.set id client (_clients a) ∧
  metadata a1 = metadata a ∧
  (∀ r c, clientObjects a !! r = Some c → clientObjects a1 !! r = Some c ∧ r ≠ client).
Proof.
  unfold createClient, newClient, generateClientId. cbn [fst snd].
  cbn [_clients metadata clientObjects emit with_trace].
  rewrite onClient_clients, metadata_onClient. split; [done|].
  split; [done|]. split; [done|].
  intros r c Hr. pose proof (lookup_lt_Some _ _ _ Hr) as Hlt.
  split; [|lia]. rewrite onClient_lookup_ne by lia. simpl.
  by apply lookup_app_l_Some.
Qed.

(** X9: two clients of the same type created one after the other, the
    second with the counter the first call returned, get different ids and
    different instances, and both are registered afterwards, whatever the
    random parts of the ids. *)
Theorem successive_clients_are_distinct a type params1 params2 random1 random2
  clientCounter :
  let first := createClient type params1 random1 clientCounter a in
  let second := createClient type params2 random2 first.1.2 first.2 in
  let id1 := (generateClientId (languageId (metadata a)) type random1 clientCounter).1 in
  let id2 := (generateClientId (languageId (metadata a)) type random2
                (clientCounter + 1)).1 in
  id1 ≠ id2 ∧ first.1.1 ≠ second.1.1 ∧
  JsMap.get id1 (_clients second.2) = Some first.1.1 ∧
  JsMap.get id2 (_clients second.2) = Some second.1.1 ∧
  client_in_state second.2 first.1.1 RuntimeClientState.Opening ∧
  client_in_state second.2 second.1.1 RuntimeClientState.Opening.
Proof.
  intros first second id1 id2.
  destruct (createClient_facts a type params1 random1 clientCounter)
    as (_ & L1 & M1 & _).
  destruct (createClient_frame a type params1 random1 clientCounter)
    as (N1 & _ & Hmeta & _).
  fold first id1 in L1, M1, N1, Hmeta.
  subst second. rewrite N1.
  destruct (createClient_facts first.2 type params2 random2 (clientCounter + 1))
    as (_ & L2 & M2 & _).
  destruct (createClient_frame first.2 type params2 random2 (clientCounter + 1))
    as (_ & C2 & _ & O2).
  rewrite Hmeta in L2, M2, C2. fold id2 in L2, M2, C2.
  set (second := createClient type params2 random2 (clientCounter + 1) first.2) in *.
  assert (Hids : id1 ≠ id2).
  { intros Heq. apply generateClientId_counter_inj in Heq. lia. }
  clearbody second first id1 id2.
  destruct (O2 _ _ L1) as [L1' Hne].
  split; [exact Hids|]. split; [exact Hne|]. split; [|split; [exact M2|]].
  - rewrite C2, get_set_ne by done. exact M1.
  - split; eexists; (split; [eassumption | done]).
Qed.

Lemma fireState_exited_facts a client c :
  clientObjects a !! client = Some c →
  _state c ≠ RuntimeClientState.Connected →
  clientObjects (fireState RuntimeState.Exited a) !! client = Some c ∧
  _clients (fireState RuntimeState.Exited a) = [] ∧
  _currentState (fireState RuntimeState.Exited a) = RuntimeState.Exited ∧
  metadata (fireState RuntimeState.Exited a) = metadata a.
Proof.
  intros Hc Hs.
  pose proof (exited_loop (JsMap.values (_clients a))
                (with_currentState RuntimeState.Exited a) client c Hc) as Hloop.
  cbn zeta in Hloop. destruct Hloop as (L & _ & S).
  rewrite decide_False in L by (by intros [_ ?]).
  unfold fireState, stateListener. rewrite decide_True by done.
  cbn [_currentState _clients clientObjects metadata emit with_trace with_clients
       with_currentState JsMap.clear] in *.
  split; [exact L|]. split; [done|]. split; [exact S|].
  apply (foldl_invariant (λ b, metadata b = metadata a)); [|done].
  intros b r <-. unfold closeIfConnected.
  destruct (clientObjects b !! r); [|done]. case_decide; [|done].
  apply metadata_onClient.
Qed.

Section AfterExit.
Context (host : HostDeclarations).

(** X10: a client that is still Opening when the runtime exits. The Exited
    state leaves it Opening and unregisters it; from then on a Comm-data or
    Comm-closed message for its id only logs a warning and changes no
    instance; and when the creation request settles afterwards the
    instance still becomes Connected, although the runtime state is Exited
    and the instance is no longer in the map of clients. *)
Theorem acknowledgement_after_exit_connects a type params random clientCounter :
  let id := (generateClientId (languageId (metadata a)) type random clientCounter).1 in
  let client := (createClient type params random clientCounter a).1.1 in
  let a1 := (createClient type params random clientCounter a).2 in
  let a2 := fireState RuntimeState.Exited a1 in
  let a3 := createClient_then client id a2 in
  client_in_state a2 client RuntimeClientState.Opening ∧ _clients a2 = [] ∧
  (∀ m, comm_id m = id →
        msg_type m = LanguageRuntimeMessageType.CommData ∨
        msg_type m = LanguageRuntimeMessageType.CommClosed →
        clientObjects (processMessage host m a2) = clientObjects a2 ∧
        ∃ text, trace (processMessage host m a2) = trace a2 ++ [Log warn text]) ∧
  client_in_state a3 client RuntimeClientState.Connected ∧
  _clients a3 = [] ∧ getRuntimeState a3 = RuntimeState.Exited.
Proof.
  intros id client a1 a2 a3.
  destruct (createClient_facts a type params random clientCounter)
    as (_ & L & _ & _).
  fold id client a1 in L.
  destruct (fireState_exited_facts a1 client _ L) as (L2 & M2 & S2 & _); [done|].
  fold a2 in L2, M2, S2. clearbody a2 a1 client id.
  assert (Hopening : client_in_state a2 client RuntimeClientState.Opening).
  { eexists. split; [exact L2 | done]. }
  split; [exact Hopening|]. split; [exact M2|]. split.
  - intros m Hid [Hm|Hm]; unfold processMessage; rewrite Hm;
      unfold emitDidReceiveClientMessage, emitClientState; rewrite M2; simpl;
      (split; [done | by eexists]).
  - pose proof (createClient_then_state client id a2 _ Hopening) as H3.
    rewrite decide_True in H3 by done. fold a3 in H3.
    split; [exact H3|].
    unfold a3, createClient_then, getRuntimeState, getClientState. rewrite L2.
    rewrite decide_True by done.
    rewrite onClient_clients, currentState_onClient. done.
Qed.

End AfterExit.

(** ** Requests, responses and disposal *)

(** X12: a message that carries the id of a pending RPC as parent id is a
    response: it resolves nothing but the promise of that request, removes
    nothing but that entry, and is not handed to the data subscribers. Any
    other message (no parent id, or one that is not pending) is handed to
    the data subscribers and leaves the instance as it is. *)
Theorem response_reaches_only_its_request m c :
  let c' := (emitData m c).1 in
  (∀ promise, parent_id m ≠ "" →
     JsMap.get (parent_id m) (_pendingRpcs c) = Some promise →
     (emitData m c).2 = [] ∧
     JsMap.get (parent_id m) (_pendingRpcs c') = None ∧
     (∀ k, k ≠ parent_id m →
           JsMap.get k (_pendingRpcs c') = JsMap.get k (_pendingRpcs c)) ∧
     (∀ p, p ≠ promise → promises c' !! p = promises c !! p) ∧
     (∀ d, promises c !! promise = Some d →
           promises c' !! promise = Some (complete (data m) d)) ∧
     _state c' = _state c) ∧
  (parent_id m = "" ∨ JsMap.get (parent_id m) (_pendingRpcs c) = None →
   emitData m c = (c, [Fire (onDidReceiveData (_id c) (data m))])).
Proof.
  intros c'. split.
  - intros promise Hne Hget. unfold c', emitData, JsMap.has. rewrite Hget.
    rewrite bool_decide_true by done. simpl.
    split; [done|]. split; [apply get_delete_eq|].
    split; [intros k Hk; by apply get_delete_ne|].
    split; [intros p Hp; by apply settle_lookup_ne|].
    split; [|done]. intros d Hd. by apply settle_lookup_eq.
  - intros [Hempty|Hnone]; unfold emitData, JsMap.has.
    + rewrite Hempty. by rewrite bool_decide_false by (by intros ?).
    + rewrite Hnone. by rewrite andb_false_r.
Qed.

(** X13: the race between the response and the timer of one RPC whose id
    was not pending before. If the response comes first, the promise is
    resolved with its payload, the map of pending RPCs is back to what it
    was before the request, and the timer then does nothing. If the timer
    fires first, the promise is rejected with the timeout error, the map is
    back to what it was, and a response that arrives later is handed to the
    data subscribers as an unsolicited message, the promise staying
    rejected. *)
Theorem response_and_timeout_race messageId request m c :
  messageId ≠ "" → parent_id m = messageId →
  JsMap.get messageId (_pendingRpcs c) = None →
  let promise := (performRpc messageId request c).1 in
  let c1 := (performRpc messageId request c).2.1 in
  let answered := (emitData m c1).1 in
  let timed_out := (performRpc_timeout promise messageId request c1).1 in
  promises answered !! promise = Some {| outcome := Some (Resolved (data m)) |} ∧
  _pendingRpcs answered = _pendingRpcs c ∧
  performRpc_timeout promise messageId request answered = (answered, []) ∧
  promises timed_out !! promise
    = Some {| outcome := Some (Rejected ("RPC timed out after 5 seconds: " +:+ request)) |} ∧
  _pendingRpcs timed_out = _pendingRpcs c ∧
  emitData m timed_out
    = (timed_out, [Fire (onDidReceiveData (_id c) (data m))]).
Proof.
  intros Hne Hparent Hfresh promise c1 answered timed_out.
  destruct (performRpc_facts messageId request c) as (Hp & Hnew & Hget & _).
  fold promise c1 in Hp, Hnew, Hget.
  assert (Hpending : _pendingRpcs c1 = JsMap.set messageId promise (_pendingRpcs c))
    by done.
  assert (Hid : _id c1 = _id c) by done.
  clearbody c1 promise.
  assert (Hanswered : promises answered !! promise
                      = Some {| outcome := Some (Resolved (data m)) |} ∧
                      _pendingRpcs answered = _pendingRpcs c).
  { unfold answered, emitData, JsMap.has. rewrite Hparent, Hget.
    rewrite bool_decide_true by done. simpl.
    rewrite (settle_lookup_eq _ _ _ _ Hnew). split; [done|].
    rewrite Hpending. by apply delete_set_absent. }
  destruct Hanswered as [A1 A2].
  assert (Htimed : promises timed_out !! promise
                   = Some {| outcome := Some (Rejected ("RPC timed out after 5 seconds: " +:+ request)) |} ∧
                   _pendingRpcs timed_out = _pendingRpcs c ∧ _id timed_out = _id c).
  { unfold timed_out, performRpc_timeout. rewrite Hnew. simpl.
    rewrite (settle_lookup_eq _ _ _ _ Hnew). split; [done|]. split; [|done].
    rewrite Hpending. by apply delete_set_absent. }
  destruct Htimed as (T1 & T2 & T3).
  split; [exact A1|]. split; [exact A2|]. split; [|split; [exact T1|split; [exact T2|]]].
  - unfold performRpc_timeout. by rewrite A1.
  - unfold emitData, JsMap.has. rewrite Hparent, T2, Hfresh, T3.
    by rewrite andb_false_r.
Qed.

(** ** The table of runtimes *)

Section Table.
Context (host : HostDeclarations).

Lemma findRuntime_get handle mt :
  findRuntime handle mt
  = match JsMap.get handle (_runtimes mt) with
    | Some runtime => Normal runtime
    | None => Throw (Error ("Unknown language runtime handle: " +:+ pretty handle))
    end.
Proof. done. Qed.

(** X14: registering and unregistering. A registered handle is found, with
    a new adapter (state Uninitialized, clock 0, no clients), also when the
    handle was registered before; an unregistered handle is not found, and
    a message or state change sent to it afterwards throws; neither call
    changes what is found under any other handle. A message or state change
    sent to a registered handle is handled by the adapter of that handle
    only: the adapters of the other handles are as they were. *)
Theorem runtime_table_round_trip mt handle metadata :
  findRuntime handle (registerLanguageRuntime handle metadata mt)
    = Normal (new_ExtHostLanguageRuntimeAdapter handle metadata) ∧
  findRuntime handle (unregisterLanguageRuntime handle mt)
    = Throw (Error ("Unknown language runtime handle: " +:+ pretty handle)) ∧
  (∀ message,
     emitLanguageRuntimeMessage host handle message
       (unregisterLanguageRuntime handle mt)
     = Throw (Error ("Unknown language runtime handle: " +:+ pretty handle))) ∧
  (∀ clock state,
     emitLanguageRuntimeState host handle clock state
       (unregisterLanguageRuntime handle mt)
     = Throw (Error ("Unknown language runtime handle: " +:+ pretty handle))) ∧
  (∀ other, other ≠ handle →
     findRuntime other (registerLanguageRuntime handle metadata mt)
       = findRuntime other mt ∧
     findRuntime other (unregisterLanguageRuntime handle mt)
       = findRuntime other mt) ∧
  (∀ runtime message, findRuntime handle mt = Normal runtime →
     ∃ mt', emitLanguageRuntimeMessage host handle message mt = Normal mt' ∧
            findRuntime handle mt'
              = Normal (handleRuntimeMessage host message runtime) ∧
            ∀ other, other ≠ handle → findRuntime other mt' = findRuntime other mt) ∧
  (∀ runtime clock state, findRuntime handle mt = Normal runtime →
     ∃ mt', emitLanguageRuntimeState host handle clock state mt = Normal mt' ∧
            findRuntime handle mt'
              = Normal (emitState host clock state runtime) ∧
            ∀ other, other ≠ handle → findRuntime other mt' = findRuntime other mt).
Proof.
  split; [|split; [|split; [|split; [|split; [|split]]]]].
  - rewrite findRuntime_get. simpl. by rewrite get_set_eq.
  - rewrite findRuntime_get. simpl. by rewrite get_delete_eq.
  - intros message. unfold emitLanguageRuntimeMessage.
    rewrite findRuntime_get. simpl. by rewrite get_delete_eq.
  - intros clock state. unfold emitLanguageRuntimeState.
    rewrite findRuntime_get. simpl. by rewrite get_delete_eq.
  - intros other Hne. rewrite !findRuntime_get. simpl.
    by rewrite get_set_ne, get_delete_ne by done.
  - intros runtime message Hfind. unfold emitLanguageRuntimeMessage.
    rewrite Hfind. eexists. split; [done|].
    rewrite !findRuntime_get. simpl. rewrite get_set_eq. split; [done|].
    intros other Hne. rewrite !findRuntime_get. simpl.
    by rewrite get_set_ne by done.
  - intros runtime clock state Hfind. unfold emitLanguageRuntimeState.
    rewrite Hfind. eexists. split; [done|].
    rewrite !findRuntime_get. simpl. rewrite get_set_eq. split; [done|].
    intros other Hne. rewrite !findRuntime_get. simpl.
    by rewrite get_set_ne by done.
Qed.

End Table.

(** ** The map of clients and the ids of the instances *)

Section JsMapDelete.
Context {K V : Type} `{EqDecision K}.

Lemma get_delete_Some k k' (v : V) (m : list (K * V)) :
  JsMap.get k' (JsMap.delete k m) = Some v → JsMap.get k' m = Some v.
Proof.
  destruct (decide (k = k')) as [->|Hne].
  - by rewrite get_delete_eq.
  - by rewrite get_delete_ne.
Qed.

End JsMapDelete.

Lemma consistent_same a b :
  _clients b = _clients a → clientObjects b = clientObjects a →
  clients_consistent a → clients_consistent b.
Proof. unfold clients_consistent. by intros -> ->. Qed.

Lemma consistent_onClient client f a :
  (∀ c, _id (f c).1 = _id c) →
  clients_consistent a → clients_consistent (onClient client f a).
Proof.
  intros Hf Ha k r Hk. rewrite onClient_clients in Hk.
  destruct (Ha k r Hk) as (c & Hc & Hid).
  destruct (decide (client = r)) as [->|Hne].
  - exists (f c).1. split; [by apply onClient_lookup_eq | by rewrite Hf].
  - exists c. by rewrite onClient_lookup_ne.
Qed.

Lemma consistent_alloc c0 a :
  clients_consistent a →
  clients_consistent (with_clientObjects (clientObjects a ++ [c0]) a).
Proof.
  intros Ha k r Hk. destruct (Ha k r Hk) as (c & Hc & Hid).
  exists c. split; [|done]. simpl. by apply lookup_app_l_Some.
Qed.

Lemma consistent_set k r c a :
  clientObjects a !! r = Some c → _id c = k →
  clients_consistent a →
  clients_consistent (with_clients (JsMap.set k r (_clients a)) a).
Proof.
  intros Hc Hid Ha k' r' Hk'. simpl in Hk'.
  destruct (decide (k = k')) as [->|Hne].
  - rewrite get_set_eq in Hk'. injection Hk' as <-. by exists c.
  - rewrite get_set_ne in Hk' by done. by apply Ha.
Qed.

Lemma consistent_delete k a :
  clients_consistent a →
  clients_consistent (with_clients (JsMap.delete k (_clients a)) a).
Proof.
  intros Ha k' r' Hk'. simpl in Hk'. apply get_delete_Some in Hk'. by apply Ha.
Qed.

Lemma dispose_id c : _id (dispose c).1 = _id c.
Proof.
  unfold dispose. cbn zeta. cbn [_state with_promises with_isDisposed].
  by destruct (_state c).
Qed.

Lemma emitData_id m c : _id (emitData m c).1 = _id c.
Proof.
  unfold emitData. case_match; [|done].
  by destruct (JsMap.get (parent_id m) (_pendingRpcs c)).
Qed.

Lemma performRpc_timeout_id promise messageId request c :
  _id (performRpc_timeout promise messageId request c).1 = _id c.
Proof.
  unfold performRpc_timeout. destruct (promises c !! promise); [|done].
  by case_match.
Qed.

Lemma consistent_closeIfConnected a r :
  clients_consistent a → clients_consistent (closeIfConnected a r).
Proof.
  intros Ha. unfold closeIfConnected.
  destruct (clientObjects a !! r); [|done]. case_decide; [|done].
  apply consistent_onClient; [|done]. intros c.
  change (_id (close_on_exit c).1 = _id c). done.
Qed.

Lemma consistent_fireState state a :
  clients_consistent a → clients_consistent (fireState state a).
Proof.
  intros Ha. unfold fireState, stateListener. case_decide.
  - intros k r Hk. done.
  - by apply (consistent_same a).
Qed.

Section Consistency.
Context (host : HostDeclarations).

Lemma consistent_processMessage message a :
  clients_consistent a → clients_consistent (processMessage host message a).
Proof.
  intros Ha. unfold processMessage.
  destruct (msg_type message); try by apply (consistent_same a).
  - unfold openClientInstance, newClient. case_match;
      [by apply (consistent_same a)|].
    set (c0 := new_ExtHostRuntimeClientInstance _ _ _).
    match goal with
    | |- clients_consistent (emit _ ?x) => apply (consistent_same x); [done..|]
    end.
    apply consistent_onClient; [done|].
    apply (consistent_set _ _ c0); [|done|by apply consistent_alloc].
    simpl. rewrite lookup_app_r by done. by rewrite Nat.sub_diag.
  - unfold emitDidReceiveClientMessage. case_match;
      [|by apply (consistent_same a)].
    apply consistent_onClient; [apply emitData_id | done].
  - unfold emitClientState. case_match; [|by apply (consistent_same a)].
    by apply consistent_onClient.
Qed.

Lemma consistent_deliver a e :
  clients_consistent a → clients_consistent (deliver host a e).
Proof.
  intros Ha. unfold deliver. destruct e; simpl.
  - apply consistent_processMessage. by apply (consistent_same a).
  - apply consistent_fireState. by apply (consistent_same a).
Qed.

Lemma consistent_processEventQueue a :
  clients_consistent a → clients_consistent (processEventQueue host a).
Proof.
  intros Ha. unfold processEventQueue. cbn zeta.
  match goal with
  | |- clients_consistent (with_eventQueue [] ?x) =>
      apply (consistent_same x); [done..|]
  end.
  apply (foldl_invariant clients_consistent).
  { intros b e Hb. by apply consistent_deliver. }
  destruct (_eventQueueTimer a); case_decide; by apply (consistent_same a).
Qed.

Lemma consistent_addToEventQueue e a :
  clients_consistent a → clients_consistent (addToEventQueue host e a).
Proof.
  intros Ha. unfold addToEventQueue. cbn zeta. case_decide.
  - destruct e; [|done]. apply consistent_processMessage.
    by apply (consistent_same a).
  - case_decide.
    + apply consistent_processEventQueue. by apply (consistent_same a).
    + cbn [_eventQueueTimer log emit with_trace with_eventQueue].
      destruct (_eventQueueTimer a); by apply (consistent_same a).
Qed.

Lemma consistent_listClients_then clients : ∀ a,
  clients_consistent a →
  clients_consistent (listClients_then host clients a).2.
Proof.
  induction clients as [|[key t] clients IH]; intros a Ha; [done|].
  rewrite listClients_then_cons. cbn zeta. cbn [snd]. apply IH.
  pose proof (listClients_then_one host key t a) as Hone. cbn zeta in Hone.
  destruct (JsMap.get key (_clients a)) as [r|]; [by destruct Hone as [_ ->]|].
  case_decide.
  - destruct Hone as (_ & Hm & Ho). intros k r Hk. rewrite Hm in Hk. rewrite Ho.
    destruct (decide (key = k)) as [->|Hne].
    + rewrite get_set_eq in Hk. injection Hk as <-. eexists. split.
      * rewrite lookup_app_r by done. by rewrite Nat.sub_diag.
      * done.
    + rewrite get_set_ne in Hk by done. destruct (Ha k r Hk) as (c & Hc & Hid).
      exists c. split; [by apply lookup_app_l_Some | done].
  - destruct Hone as (_ & Hm & Ho). by apply (consistent_same a).
Qed.

Lemma consistent_step a call :
  clients_consistent a → clients_consistent (step host a call).
Proof.
  intros Ha. destruct call; cbn [step].
  - by apply consistent_addToEventQueue.
  - by apply consistent_addToEventQueue.
  - unfold eventQueueTimeout. destruct (_eventQueueTimer a); [|done].
    apply consistent_processEventQueue. by apply (consistent_same a).
  - unfold createClient, newClient.
    destruct (generateClientId _ _ _ _) as [id n]. cbn [fst snd].
    set (c0 := new_ExtHostRuntimeClientInstance _ _ _).
    match goal with
    | |- clients_consistent (emit _ ?x) => apply (consistent_same x); [done..|]
    end.
    apply consistent_onClient; [done|].
    match goal with
    | |- clients_consistent (log _ _ ?x) => apply (consistent_same x); [done..|]
    end.
    apply (consistent_set _ _ c0); [|done|by apply consistent_alloc].
    simpl. rewrite lookup_app_r by done. by rewrite Nat.sub_diag.
  - unfold createClient_then. destruct (clientObjects a !! client); [|done].
    case_decide; [by apply consistent_onClient | by apply (consistent_same a)].
  - unfold createClient_catch. apply consistent_delete.
    apply consistent_onClient; [done|]. by apply (consistent_same a).
  - by apply consistent_listClients_then.
  - unfold interrupt.
    match goal with
    | |- clients_consistent (emit _ ?x) => apply (consistent_same x); [done..|]
    end.
    by apply consistent_fireState.
  - unfold restart.
    match goal with
    | |- clients_consistent (emit _ ?x) => apply (consistent_same x); [done..|]
    end.
    by apply consistent_fireState.
  - unfold shutdown.
    match goal with
    | |- clients_consistent (emit _ ?x) => apply (consistent_same x); [done..|]
    end.
    by apply consistent_fireState.
  - by apply consistent_onClient.
  - apply consistent_onClient; [apply performRpc_timeout_id | done].
  - by apply consistent_onClient.
  - apply consistent_onClient; [apply dispose_id | done].
Qed.

(** X15: whatever calls an adapter has received, every id in its map of
    clients leads to an instance that exists and that carries this id, so a
    message routed by comm id always reaches the instance whose
    [getClientId] is that id. *)
Theorem registered_ids_match_instances handle metadata calls :
  let a := run host (new_ExtHostLanguageRuntimeAdapter handle metadata) calls in
  ∀ id client, JsMap.get id (_clients a) = Some client →
    ∃ c, clientObjects a !! client = Some c ∧ _id c = id.
Proof.
  intros a. change (clients_consistent a). unfold a, run.
  apply (foldl_invariant clients_consistent).
  - intros b c Hb. by apply consistent_step.
  - intros k r Hk. done.
Qed.

End Consistency.

(** ** Pending RPCs when the runtime exits *)

(** X16: when the Exited state is fired, every RPC still pending on a
    registered client that is Connected is rejected with the error of the
    exited runtime; the client ends Closed and the adapter's map of clients
    empty. *)
Theorem exit_rejects_pending_rpcs a client c messageId promise :
  clientObjects a !! client = Some c →
  client ∈ JsMap.values (_clients a) →
  _state c = RuntimeClientState.Connected →
  JsMap.get messageId (_pendingRpcs c) = Some promise →
  promises c !! promise = Some {| outcome := None |} →
  ∃ c', clientObjects (fireState RuntimeState.Exited a) !! client = Some c' ∧
        _state c' = RuntimeClientState.Closed ∧
        promises c' !! promise
          = Some {| outcome := Some (Rejected "The language runtime exited before the RPC completed.") |} ∧
        _clients (fireState RuntimeState.Exited a) = [].
Proof.
  intros Hc Hin Hs Hget Hp.
  pose proof (exited_loop (JsMap.values (_clients a))
                (with_currentState RuntimeState.Exited a) client c Hc) as Hloop.
  cbn zeta in Hloop. destruct Hloop as (L & _ & _).
  rewrite decide_True in L by done.
  exists (close_on_exit c).1.
  unfold fireState, stateListener. rewrite decide_True by done.
  cbn [_clients clientObjects emit with_trace with_clients with_currentState
       JsMap.clear] in *.
  split; [exact L|]. split; [done|]. split; [|done].
  pose proof (dispose_rejects_and_keeps messageId promise
                (with_state RuntimeClientState.Closed
                   (with_state RuntimeClientState.Closing c)) Hget Hp) as [Hd _].
  exact Hd.
Qed.

(** ** The recovery timer *)

Lemma pending_timers_app tr es :
  pending_timers (tr ++ es) = foldl timer_step (pending_timers tr) es.
Proof. unfold pending_timers. apply foldl_app. Qed.

Lemma timer_free_step es : ∀ pending,
  Forall (λ e, is_timer_effect e = false) es → foldl timer_step pending es = pending.
Proof.
  induction es as [|e es IH]; intros pending Hes; [done|].
  apply Forall_cons in Hes as [He Hes]. cbn [foldl]. rewrite IH by done.
  by destruct e.
Qed.

Lemma clear_only_timer (t : nat) : filter (λ t', t' ≠ t) [t] = [].
Proof. rewrite filter_cons. by case_decide. Qed.

Lemma quiet_refl a : quiet a a.
Proof. exists []. by rewrite app_nil_r. Qed.

Lemma quiet_trans a b c : quiet a b → quiet b c → quiet a c.
Proof.
  intros (es1 & H1 & F1) (es2 & H2 & F2). exists (es1 ++ es2).
  split; [by rewrite H2, H1, app_assoc | by apply Forall_app].
Qed.

Lemma quiet_same a b : trace b = trace a → quiet a b.
Proof. intros Ht. exists []. by rewrite app_nil_r. Qed.

Lemma quiet_emit e a : is_timer_effect e = false → quiet a (emit e a).
Proof. intros He. exists [e]. split; [done | by constructor]. Qed.

Lemma quiet_onClient client f a :
  (∀ c, Forall (λ e, is_timer_effect e = false) (f c).2) →
  quiet a (onClient client f a).
Proof.
  intros Hf. unfold onClient.
  destruct (clientObjects a !! client) as [c|]; [|apply quiet_refl].
  specialize (Hf c). destruct (f c) as [c' es]. by exists es.
Qed.

Lemma dispose_quiet c : Forall (λ e, is_timer_effect e = false) (dispose c).2.
Proof.
  unfold dispose. cbn zeta. cbn [_state with_promises with_isDisposed].
  destruct (_state c); simpl; by repeat constructor.
Qed.

Lemma emitData_quiet m c : Forall (λ e, is_timer_effect e = false) (emitData m c).2.
Proof.
  unfold emitData. case_match; [|by repeat constructor].
  destruct (JsMap.get (parent_id m) (_pendingRpcs c)); constructor.
Qed.

Lemma performRpc_timeout_quiet promise messageId request c :
  Forall (λ e, is_timer_effect e = false)
    (performRpc_timeout promise messageId request c).2.
Proof.
  unfold performRpc_timeout. destruct (promises c !! promise); [|constructor].
  case_match; constructor.
Qed.

Lemma quiet_closeIfConnected a r : quiet a (closeIfConnected a r).
Proof.
  unfold closeIfConnected. destruct (clientObjects a !! r); [|apply quiet_refl].
  case_decide; [|apply quiet_refl].
  apply quiet_onClient. intros c.
  change (Forall (λ e, is_timer_effect e = false) (close_on_exit c).2).
  destruct (close_on_exit_facts c) as (_ & _ & _ & ->). by repeat constructor.
Qed.

Lemma quiet_fireState state a : quiet a (fireState state a).
Proof.
  unfold fireState. eapply quiet_trans; [|by apply quiet_emit].
  unfold stateListener. case_decide; [|by apply quiet_same].
  eapply quiet_trans; [|by apply quiet_same].
  apply (foldl_invariant (quiet a)); [|by apply quiet_same].
  intros b r Hb. eapply quiet_trans; [exact Hb | apply quiet_closeIfConnected].
Qed.

Lemma timers_ok_quiet a b :
  quiet a b → _eventQueueTimer b = _eventQueueTimer a → timers_ok a → timers_ok b.
Proof.
  intros (es & Ht & Hes) Htimer [Hp Hd]. split.
  - by rewrite Ht, pending_timers_app, timer_free_step, Htimer.
  - intros t ms. rewrite Ht, elem_of_app. intros [Hin|Hin]; [by eapply Hd|].
    eapply Forall_forall in Hes; [|exact Hin]. done.
Qed.

Section Timer.
Context (host : HostDeclarations).

Lemma quiet_processMessage message a : quiet a (processMessage host message a).
Proof.
  unfold processMessage. destruct (msg_type message); try by apply quiet_emit.
  - unfold openClientInstance, newClient. case_match; [by apply quiet_emit|].
    eapply quiet_trans; [|by apply quiet_emit].
    eapply quiet_trans; [|apply quiet_onClient; intros c; by repeat constructor].
    by apply quiet_same.
  - unfold emitDidReceiveClientMessage. case_match; [|by apply quiet_emit].
    apply quiet_onClient, emitData_quiet.
  - unfold emitClientState. case_match; [|by apply quiet_emit].
    apply quiet_onClient. intros c. by repeat constructor.
Qed.

Lemma quiet_deliver a e : quiet a (deliver host a e).
Proof.
  unfold deliver. destruct e; simpl.
  - eapply quiet_trans; [|apply quiet_processMessage]. by apply quiet_same.
  - eapply quiet_trans; [|apply quiet_fireState]. by apply quiet_same.
Qed.

Lemma quiet_foldl_deliver l a : quiet a (foldl (deliver host) a l).
Proof.
  apply (foldl_invariant (quiet a)); [|apply quiet_refl].
  intros b e Hb. eapply quiet_trans; [exact Hb | apply quiet_deliver].
Qed.

Lemma timers_ok_processEventQueue a :
  timers_ok a → timers_ok (processEventQueue host a).
Proof.
  intros [Hp Hd].
  destruct (processEventQueue_facts host a) as (_ & _ & Htimer & _).
  set (a1 := with_eventQueueTimer None
               match _eventQueueTimer a with
               | Some t => emit (ClearTimeout t) a
               | None => a
               end).
  assert (H1 : timers_ok a1).
  { unfold a1. destruct (_eventQueueTimer a) as [t|] eqn:Ht; split; simpl.
    - rewrite pending_timers_app, Hp. cbn [option_list foldl timer_step].
      apply clear_only_timer.
    - intros t' ms. rewrite elem_of_app. intros [Hin|Hin]; [by eapply Hd|].
      by apply list_elem_of_singleton in Hin.
    - done.
    - done. }
  apply (timers_ok_quiet a1); [|by rewrite Htimer|done].
  unfold processEventQueue. cbn zeta. fold a1.
  eapply quiet_trans; [|by apply quiet_same].
  eapply quiet_trans; [|apply quiet_foldl_deliver].
  case_decide; [|apply quiet_refl].
  eapply quiet_trans; [|by apply quiet_emit]. by apply quiet_same.
Qed.

Lemma timers_ok_addToEventQueue e a :
  timers_ok a → timers_ok (addToEventQueue host e a).
Proof.
  intros Ha. unfold addToEventQueue. cbn zeta. case_decide.
  - destruct e as [c m|c s]; [|done].
    match goal with |- context [processMessage host m ?b] =>
      apply (timers_ok_quiet b);
        [apply quiet_processMessage
        |by destruct (same_queue_processMessage host m b) as (_ & _ & -> & _)|]
    end.
    apply (timers_ok_quiet a); [by apply quiet_emit | done | done].
  - cbn [_eventClock with_eventQueue]. case_decide.
    + apply timers_ok_processEventQueue.
      apply (timers_ok_quiet a); [by apply quiet_same | done | done].
    + cbn [_eventQueueTimer log emit with_trace with_eventQueue].
      destruct Ha as [Hp Hd].
      destruct (_eventQueueTimer a) as [t|] eqn:Ht; split; simpl.
      * rewrite <- !app_assoc, !pending_timers_app, Hp.
        cbn [option_list foldl timer_step app]. by rewrite clear_only_timer.
      * intros t' ms. rewrite !elem_of_app, !list_elem_of_singleton.
        intros [[[Hin|Hin]|Hin]|Hin]; try done; [by eapply Hd | congruence].
      * by rewrite <- !app_assoc, !pending_timers_app, Hp.
      * intros t' ms. rewrite !elem_of_app, !list_elem_of_singleton.
        intros [[Hin|Hin]|Hin]; try done; [by eapply Hd | congruence].
Qed.

Lemma timers_ok_step a call : timers_ok a → timers_ok (step host a call).
Proof.
  intros Ha. pose proof (same_queue_step host a call) as Hsame.
  destruct call; cbn [step] in *.
  - by apply timers_ok_addToEventQueue.
  - by apply timers_ok_addToEventQueue.
  - unfold eventQueueTimeout. destruct (_eventQueueTimer a) eqn:Ht; [|done].
    apply timers_ok_processEventQueue.
    apply (timers_ok_quiet a); [by apply quiet_emit | done | done].
  - apply (timers_ok_quiet a); [|by destruct Hsame as (_ & _ & -> & _)|done].
    unfold createClient, newClient.
    destruct (generateClientId _ _ _ _) as [id n]. cbn [fst snd].
    eapply quiet_trans; [|by apply quiet_emit].
    eapply quiet_trans; [|apply quiet_onClient; intros c; by repeat constructor].
    eapply quiet_trans; [|by apply quiet_emit]. by apply quiet_same.
  - apply (timers_ok_quiet a); [|by destruct Hsame as (_ & _ & -> & _)|done].
    unfold createClient_then. destruct (clientObjects a !! client); [|apply quiet_refl].
    case_decide; [|by apply quiet_emit].
    apply quiet_onClient. intros c. by repeat constructor.
  - apply (timers_ok_quiet a); [|by destruct Hsame as (_ & _ & -> & _)|done].
    unfold createClient_catch.
    eapply quiet_trans; [|by apply quiet_same].
    eapply quiet_trans; [|apply quiet_onClient; intros c; by repeat constructor].
    by apply quiet_emit.
  - apply (timers_ok_quiet a); [|by destruct Hsame as (_ & _ & -> & _)|done].
    clear Hsame Ha. revert a.
    induction clients as [|[key t] clients IH]; intros a; [apply quiet_refl|].
    rewrite listClients_then_cons. cbn zeta. cbn [snd].
    eapply quiet_trans; [|apply IH].
    unfold listClients_then, newClient. cbn [foldl].
    destruct (JsMap.get key (_clients a)); [apply quiet_refl|].
    case_bool_decide; cbn [fst snd]; [|by apply quiet_emit].
    eapply quiet_trans; [|by apply quiet_same].
    eapply quiet_trans; [|apply quiet_onClient; intros c; by repeat constructor].
    by apply quiet_same.
  - apply (timers_ok_quiet a); [|by destruct Hsame as (_ & _ & -> & _)|done].
    unfold interrupt. eapply quiet_trans; [apply quiet_fireState | by apply quiet_emit].
  - apply (timers_ok_quiet a); [|by destruct Hsame as (_ & _ & -> & _)|done].
    unfold restart. eapply quiet_trans; [apply quiet_fireState | by apply quiet_emit].
  - apply (timers_ok_quiet a); [|by destruct Hsame as (_ & _ & -> & _)|done].
    unfold shutdown. eapply quiet_trans; [apply quiet_fireState | by apply quiet_emit].
  - apply (timers_ok_quiet a); [|by destruct Hsame as (_ & _ & -> & _)|done].
    apply quiet_onClient. intros c. by repeat constructor.
  - apply (timers_ok_quiet a); [|by destruct Hsame as (_ & _ & -> & _)|done].
    apply quiet_onClient, performRpc_timeout_quiet.
  - apply (timers_ok_quiet a); [|by destruct Hsame as (_ & _ & -> & _)|done].
    apply quiet_onClient. intros c. by repeat constructor.
  - apply (timers_ok_quiet a); [|by destruct Hsame as (_ & _ & -> & _)|done].
    apply quiet_onClient, dispose_quiet.
Qed.

(** X17: at most one recovery timer is pending. Whatever calls an adapter
    has received, the timers that were set and not cleared since are
    exactly the one the adapter holds, if it holds one: a deferral clears
    the timer it replaces and a flush clears the timer before it delivers.
    Every timer was set with the delay of 250 ms. *)
Theorem at_most_one_recovery_timer handle metadata calls :
  let a := run host (new_ExtHostLanguageRuntimeAdapter handle metadata) calls in
  pending_timers (trace a) = option_list (_eventQueueTimer a) ∧
  (length (pending_timers (trace a)) ≤ 1)%nat ∧
  (∀ t ms, SetTimeout t ms ∈ trace a → ms = 250).
Proof.
  intros a.
  assert (Hok : timers_ok a).
  { unfold a, run. apply (foldl_invariant timers_ok).
    - intros b c Hb. by apply timers_ok_step.
    - split; [done|]. intros t ms Hin. by apply elem_of_nil in Hin. }
  destruct Hok as [Hp Hd]. split; [exact Hp|]. split; [|exact Hd].
  rewrite Hp. destruct (_eventQueueTimer a); simpl; lia.
Qed.

End Timer.

(** ** The further properties at concrete inputs *)

Lemma buffered_events_have_a_timer_witness :
  let a := run example_host example_adapter
             [call_handleRuntimeMessage (example_message LanguageRuntimeMessageType.Stream 1 "");
              call_handleRuntimeMessage (example_message LanguageRuntimeMessageType.Stream 3 "")] in
  _eventQueue a = [stream_at 3] ∧ _eventQueueTimer a = Some 0%nat ∧
  _eventQueue (eventQueueTimeout example_host a) = [] ∧
  _eventQueueTimer (eventQueueTimeout example_host a) = None.
Proof.
  intros a.
  destruct (buffered_events_have_a_timer example_host 7
              {| languageId := "python"; runtimeName := "Python 3" |}
              [call_handleRuntimeMessage (example_message LanguageRuntimeMessageType.Stream 1 "");
               call_handleRuntimeMessage (example_message LanguageRuntimeMessageType.Stream 3 "")])
    as (_ & Hq & Ht).
  split; [reflexivity|]. split; [reflexivity|]. split; [exact Hq | exact Ht].
Defined.

Lemma messages_delivered_exactly_once_witness :
  let calls := [call_handleRuntimeMessage (example_message LanguageRuntimeMessageType.Stream 1 "");
                call_emitState 5 RuntimeState.Busy;
                call_handleRuntimeMessage (example_message LanguageRuntimeMessageType.Stream 3 "")] in
  let a := run example_host example_adapter calls in
  messages_of (delivered (eventQueueTimeout example_host a))
    ≡ₚ [stream_at 1; stream_at 3].
Proof.
  intros calls a.
  exact (proj2 (messages_delivered_exactly_once example_host 7
                  {| languageId := "python"; runtimeName := "Python 3" |} calls)).
Defined.

Lemma latest_state_change_wins_witness :
  let a := submitAll example_host example_adapter [stream_at 1] in
  let evs := [QueuedRuntimeStateEvent 4 RuntimeState.Ready;
              QueuedRuntimeStateEvent 3 RuntimeState.Busy] in
  getRuntimeState (addToEventQueue example_host (stream_at 2)
                     (submitAll example_host a evs)) = RuntimeState.Ready ∧
  getRuntimeState (eventQueueTimeout example_host (submitAll example_host a evs))
    = RuntimeState.Ready.
Proof.
  intros a evs.
  assert (Hc : _eventClock a ≠ 0) by (vm_compute; done).
  assert (Hq : _eventQueue a = []) by reflexivity.
  assert (Hd : Forall (deferred a) evs).
  { repeat constructor; vm_compute; done. }
  assert (He : clock (stream_at 2) = _eventClock a + 1) by reflexivity.
  destruct (latest_state_change_wins example_host a evs (stream_at 2) Hc Hq Hd He)
    as (_ & _ & Hclosed & Htimeout).
  split; [exact Hclosed | exact Htimeout].
Defined.

Lemma in_order_events_delivered_on_arrival_witness :
  let evs := [stream_at 1; QueuedRuntimeStateEvent 2 RuntimeState.Busy; stream_at 3] in
  let a := submitAll example_host example_adapter evs in
  delivered a = evs ∧ _eventQueue a = [] ∧ _eventClock a = 3 ∧
  _eventQueueTimer a = None.
Proof.
  intros evs a.
  assert (Hq : _eventQueue example_adapter = []) by reflexivity.
  assert (Hs : in_sequence (_eventClock example_adapter) evs).
  { repeat split. }
  destruct (in_order_events_delivered_on_arrival example_host evs example_adapter Hq Hs)
    as (Hd & Hq' & Hc & _ & Ht).
  split; [exact Hd|]. split; [exact Hq'|]. split; [exact Hc|]. by apply Ht.
Defined.

Lemma comm_open_registers_known_types_only_witness :
  let known := example_message LanguageRuntimeMessageType.CommOpen 1 "comm-1" in
  let a := processMessage example_host known example_adapter in
  JsMap.get "comm-1" (_clients a) = Some 0%nat ∧
  clientObjects a
    = [with_state RuntimeClientState.Connected
         (new_ExtHostRuntimeClientInstance "comm-1" "positron.environment" 7)].
Proof.
  intros known a.
  assert (Hm : msg_type known = LanguageRuntimeMessageType.CommOpen) by reflexivity.
  assert (Hin : target_name known ∈ RuntimeClientType_values example_host).
  { apply (bool_decide_unpack _). by vm_compute. }
  destruct (comm_open_registers_known_types_only example_host example_adapter known Hm)
    as (_ & Hknown).
  destruct (Hknown Hin) as (Hget & _ & Hobjs & _).
  split; [exact Hget | exact Hobjs].
Defined.

Lemma failed_creation_restores_clients_witness :
  let created := createClient "positron.environment" "{}" 4076792474 0 example_adapter in
  let a := createClient_catch created.1.1 "positron-environment-python-0-f2feea9a"
             "refused" created.2 in
  _clients created.2 = [("positron-environment-python-0-f2feea9a", 0%nat)] ∧
  _clients a = [] ∧ client_in_state a 0 RuntimeClientState.Closed.
Proof.
  intros created a.
  assert (Hfresh : JsMap.get
                     (generateClientId (languageId (metadata example_adapter))
                        "positron.environment" 4076792474 0).1
                     (_clients example_adapter) = None) by reflexivity.
  destruct (failed_creation_restores_clients example_adapter "positron.environment"
              "{}" 4076792474 0 "refused" Hfresh) as (Hclients & Hclosed & _).
  split; [reflexivity|]. split; [exact Hclients | exact Hclosed].
Defined.

Lemma listClients_reconciles_witness :
  let listed := [("comm-1", "positron.lsp"); ("comm-2", "unknown.type")] in
  let result := listClients_then example_host listed example_adapter in
  result.1 = [0%nat] ∧
  is_Some (JsMap.get "comm-1" (_clients result.2)) ∧
  JsMap.get "comm-2" (_clients result.2) = None.
Proof.
  intros listed result.
  destruct (listClients_reconciles example_host listed example_adapter)
    as (_ & _ & Hvalid & _).
  split; [reflexivity|]. split; [|reflexivity].
  apply (Hvalid "comm-1" "positron.lsp"); [left|].
  apply (bool_decide_unpack _). by vm_compute.
Defined.

Lemma generated_ids_differ_by_counter_witness :
  (generateClientId "python" "positron.lsp" 255 0).1 = "positron-lsp-python-0-ff" ∧
  (generateClientId "python" "positron.lsp" 255 0).1
    ≠ (generateClientId "python" "positron.lsp" 255 1).1.
Proof.
  assert (Hne : (0 ≠ 1)%N) by done.
  split; [reflexivity|].
  exact (proj1 (generated_ids_differ_by_counter "python" "positron.lsp" 255 255 0 1 Hne)).
Defined.

Lemma successive_clients_are_distinct_witness :
  let first := createClient "positron.lsp" "{}" 255 0 example_adapter in
  let second := createClient "positron.lsp" "{}" 255 first.1.2 first.2 in
  JsMap.get "positron-lsp-python-0-ff" (_clients second.2) = Some 0%nat ∧
  JsMap.get "positron-lsp-python-1-ff" (_clients second.2) = Some 1%nat.
Proof.
  intros first second.
  destruct (successive_clients_are_distinct example_adapter "positron.lsp"
              "{}" "{}" 255 255 0) as (_ & _ & H1 & H2 & _).
  split; [exact H1 | exact H2].
Defined.

Lemma acknowledgement_after_exit_connects_witness :
  let created := createClient "positron.lsp" "{}" 255 0 example_adapter in
  let a := createClient_then created.1.1 "positron-lsp-python-0-ff"
             (fireState RuntimeState.Exited created.2) in
  client_in_state a 0 RuntimeClientState.Connected ∧ _clients a = [] ∧
  getRuntimeState a = RuntimeState.Exited.
Proof.
  intros created a.
  destruct (acknowledgement_after_exit_connects example_host example_adapter
              "positron.lsp" "{}" 255 0) as (_ & _ & _ & Hc & Hm & Hs).
  split; [exact Hc|]. split; [exact Hm | exact Hs].
Defined.

Lemma response_reaches_only_its_request_witness :
  let c := (performRpc "uuid-1" "{op:x}"
              (new_ExtHostRuntimeClientInstance "comm-1" "positron.lsp" 7)).2.1 in
  let response :=
    {| msg_id := "r1"; parent_id := "uuid-1";
       msg_type := LanguageRuntimeMessageType.CommData; event_clock := 3;
       comm_id := "comm-1"; target_name := ""; data := "{result:1}" |} in
  (emitData response c).2 = [] ∧
  promises (emitData response c).1 !! 0%nat
    = Some {| outcome := Some (Resolved "{result:1}") |}.
Proof.
  intros c response.
  assert (Hne : parent_id response ≠ "") by done.
  assert (Hget : JsMap.get (parent_id response) (_pendingRpcs c) = Some 0%nat)
    by reflexivity.
  destruct (response_reaches_only_its_request response c) as [Hresp _].
  destruct (Hresp 0%nat Hne Hget) as (He & _ & _ & _ & Hp & _).
  split; [exact He|]. by apply (Hp {| outcome := None |}).
Defined.

Lemma response_and_timeout_race_witness :
  let c := new_ExtHostRuntimeClientInstance "comm-1" "positron.lsp" 7 in
  let response :=
    {| msg_id := "r1"; parent_id := "uuid-1";
       msg_type := LanguageRuntimeMessageType.CommData; event_clock := 3;
       comm_id := "comm-1"; target_name := ""; data := "{result:1}" |} in
  let c1 := (performRpc "uuid-1" "{op:x}" c).2.1 in
  let timed_out := (performRpc_timeout 0 "uuid-1" "{op:x}" c1).1 in
  promises timed_out !! 0%nat
    = Some {| outcome := Some (Rejected "RPC timed out after 5 seconds: {op:x}") |} ∧
  emitData response timed_out
    = (timed_out, [Fire (onDidReceiveData "comm-1" "{result:1}")]).
Proof.
  intros c response c1 timed_out.
  assert (Hne : "uuid-1" ≠ "") by done.
  assert (Hp : parent_id response = "uuid-1") by reflexivity.
  assert (Hfresh : JsMap.get "uuid-1" (_pendingRpcs c) = None) by reflexivity.
  destruct (response_and_timeout_race "uuid-1" "{op:x}" response c Hne Hp Hfresh)
    as (_ & _ & _ & Ht & _ & Hlate).
  split; [exact Ht | exact Hlate].
Defined.

Lemma runtime_table_round_trip_witness :
  let md := {| languageId := "python"; runtimeName := "Python 3" |} in
  let mt := registerLanguageRuntime 7 md {| _runtimes := [] |} in
  findRuntime 7 mt = Normal example_adapter ∧
  findRuntime 7 (unregisterLanguageRuntime 7 mt)
    = Throw (Error "Unknown language runtime handle: 7").
Proof.
  intros md mt.
  destruct (runtime_table_round_trip example_host {| _runtimes := [] |} 7 md)
    as (Hreg & _).
  destruct (runtime_table_round_trip example_host mt 7 md) as (_ & Hunreg & _).
  split; [exact Hreg | exact Hunreg].
Defined.

Lemma registered_ids_match_instances_witness :
  let a := run example_host example_adapter
             [call_handleRuntimeMessage
                (example_message LanguageRuntimeMessageType.CommOpen 1 "comm-1")] in
  JsMap.get "comm-1" (_clients a) = Some 0%nat ∧
  ∃ c, clientObjects a !! 0%nat = Some c ∧ _id c = "comm-1".
Proof.
  intros a.
  assert (Hget : JsMap.get "comm-1" (_clients a) = Some 0%nat) by reflexivity.
  split; [exact Hget|].
  exact (registered_ids_match_instances example_host 7
           {| languageId := "python"; runtimeName := "Python 3" |}
           [call_handleRuntimeMessage
              (example_message LanguageRuntimeMessageType.CommOpen 1 "comm-1")]
           "comm-1" 0%nat Hget).
Defined.

Lemma exit_rejects_pending_rpcs_witness :
  let a := run example_host example_adapter
             [call_handleRuntimeMessage
                (example_message LanguageRuntimeMessageType.CommOpen 1 "comm-1");
              call_performRpc 0 "uuid-1" "{op:x}"] in
  ∃ c', clientObjects (fireState RuntimeState.Exited a) !! 0%nat = Some c' ∧
        _state c' = RuntimeClientState.Closed ∧
        promises c' !! 0%nat
          = Some {| outcome := Some (Rejected "The language runtime exited before the RPC completed.") |} ∧
        _clients (fireState RuntimeState.Exited a) = [].
Proof.
  intros a.
  assert (Hc : clientObjects a !! 0%nat
               = Some (performRpc "uuid-1" "{op:x}"
                         (with_state RuntimeClientState.Connected
                            (new_ExtHostRuntimeClientInstance "comm-1"
                               "positron.environment" 7))).2.1) by reflexivity.
  assert (Hin : 0%nat ∈ JsMap.values (_clients a)).
  { apply (bool_decide_unpack _). by vm_compute. }
  apply (exit_rejects_pending_rpcs a 0 _ "uuid-1" 0 Hc Hin); reflexivity.
Defined.

Lemma at_most_one_recovery_timer_witness :
  let a := run example_host example_adapter
             [call_handleRuntimeMessage (example_message LanguageRuntimeMessageType.Stream 1 "");
              call_handleRuntimeMessage (example_message LanguageRuntimeMessageType.Stream 5 "");
              call_handleRuntimeMessage (example_message LanguageRuntimeMessageType.Stream 4 "")] in
  _eventQueueTimer a = Some 1%nat ∧ pending_timers (trace a) = [1%nat].
Proof.
  intros a.
  destruct (at_most_one_recovery_timer example_host 7
              {| languageId := "python"; runtimeName := "Python 3" |}
              [call_handleRuntimeMessage (example_message LanguageRuntimeMessageType.Stream 1 "");
               call_handleRuntimeMessage (example_message LanguageRuntimeMessageType.Stream 5 "");
               call_handleRuntimeMessage (example_message LanguageRuntimeMessageType.Stream 4 "")])
    as (Hp & _).
  split; [reflexivity | exact Hp].
Defined.
